(** * Scroll-driven suit scene: keyframe interpolation, camera math and
      bounding-volume normalisation

    A shallow embedding of [src/hooks/useSuitScrollAnimation.ts] and of the
    canvas component [ThreeSuitCanvas.tsx] in the version that has [cameraX],
    [offsetXPx] and the desktop pivot (the text after the navigation bar in
    [src/components/Navbar.tsx]). The earlier version in
    [src/components/ThreeSuitCanvas.tsx] scales and centres the model the
    same way, without the pivot.

    Numbers.  A JavaScript number is modelled as a real number or one of the
    three non-finite values [Infinity], [-Infinity] and [NaN].  Finite
    arithmetic is exact (rounding is not modelled) and zero carries no sign:
    a division by zero yields the infinity of the dividend's sign, or [NaN]
    for [0/0], as IEEE 754 does for a positive zero divisor. *)

From Stdlib Require Import Reals Lra List Bool.
From Stdlib Require Import Sorted Lia.
Import ListNotations.
Open Scope R_scope.

(* ================================================================== *)
(** * JavaScript numbers *)
(* ================================================================== *)

Module JS.

Inductive number : Type :=
| Fin (r : R)
| PInf
| NInf
| NaN.

Definition isFinite (a : number) : bool :=
  match a with Fin _ => true | _ => false end.

(** The infinity that a non-zero real selects: [+oo * r]. *)
Definition signed_inf (r : R) : number :=
  if Rlt_dec 0 r then PInf else if Rlt_dec r 0 then NInf else NaN.

Definition neg (a : number) : number :=
  match a with
  | Fin r => Fin (- r)
  | PInf => NInf
  | NInf => PInf
  | NaN => NaN
  end.

Definition add (a b : number) : number :=
  match a, b with
  | NaN, _ | _, NaN => NaN
  | Fin r, Fin s => Fin (r + s)
  | PInf, NInf | NInf, PInf => NaN
  | PInf, _ | _, PInf => PInf
  | NInf, _ | _, NInf => NInf
  end.

Definition sub (a b : number) : number := add a (neg b).

Definition mul (a b : number) : number :=
  match a, b with
  | NaN, _ | _, NaN => NaN
  | Fin r, Fin s => Fin (r * s)
  | Fin r, PInf | PInf, Fin r => signed_inf r
  | Fin r, NInf | NInf, Fin r => signed_inf (- r)
  | PInf, PInf | NInf, NInf => PInf
  | PInf, NInf | NInf, PInf => NInf
  end.

Definition div (a b : number) : number :=
  match a, b with
  | NaN, _ | _, NaN => NaN
  | Fin r, Fin s => if Req_dec_T s 0 then signed_inf r else Fin (r / s)
  | Fin _, _ => Fin 0
  | PInf, Fin s => if Rlt_dec s 0 then NInf else PInf
  | NInf, Fin s => if Rlt_dec s 0 then PInf else NInf
  | _, _ => NaN
  end.

(** [a >= b]; every comparison with [NaN] is false. *)
Definition ge (a b : number) : bool :=
  match a, b with
  | NaN, _ | _, NaN => false
  | Fin r, Fin s => if Rle_dec s r then true else false
  | PInf, _ => true
  | _, NInf => true
  | _, _ => false
  end.

(** [Math.max] and [Math.min] of two numbers. *)
Definition max2 (a b : number) : number :=
  match a, b with
  | NaN, _ | _, NaN => NaN
  | Fin r, Fin s => Fin (Rmax r s)
  | PInf, _ | _, PInf => PInf
  | NInf, c | c, NInf => c
  end.

Definition min2 (a b : number) : number :=
  match a, b with
  | NaN, _ | _, NaN => NaN
  | Fin r, Fin s => Fin (Rmin r s)
  | NInf, _ | _, NInf => NInf
  | PInf, c | c, PInf => c
  end.

(** [Math.max(a, b, c)]. *)
Definition max3 (a b c : number) : number := max2 (max2 a b) c.

(** [Math.tan]; of a non-finite argument it is [NaN]. *)
Definition Math_tan (a : number) : number :=
  match a with Fin r => Fin (tan r) | _ => NaN end.

(** [Math.PI]. *)
Definition Math_PI : number := Fin PI.

(** How a call completes: normally with a value, or abruptly with a thrown
    error.  The error names are those of the specification's taxonomy. *)
Inductive error : Type :=
| DegenerateGeometry
| DegenerateViewport
| EmptyKeyframeTable.

Inductive completion (A : Type) : Type :=
| Normal (a : A)
| Throw (e : error).

Arguments Normal {A} a.
Arguments Throw {A} e.

End JS.

Import JS.

Declare Scope js_scope.
Delimit Scope js_scope with js.
Bind Scope js_scope with number.
Infix "+" := add : js_scope.
Infix "-" := sub : js_scope.
Infix "*" := mul : js_scope.
Infix "/" := div : js_scope.
Notation "- a" := (neg a) : js_scope.

(* ================================================================== *)
(** * The three.js values the components use *)
(* ================================================================== *)

Module THREE.

Record Vector3 : Type := mkVector3 { x : number; y : number; z : number }.

(** [v.setScalar(s)]. *)
Definition setScalar (s : number) : Vector3 := mkVector3 s s s.

(** Modelled from the spec: [Vector3.lerp] and [MathUtils.lerp] are three.js
    code, absent from src/. Section 4.3 step 7 and the glossary give the law:
    one step covers the fraction [alpha] of the remaining distance to the
    target. *)
Definition lerp (a b t : number) : number := (a + (b - a) * t)%js.

Definition Vector3_lerp (this v : Vector3) (alpha : number) : Vector3 :=
  mkVector3 (lerp (x this) (x v) alpha)
            (lerp (y this) (y v) alpha)
            (lerp (z this) (z v) alpha).

Record Box3 : Type := mkBox3 { min : Vector3; max : Vector3 }.

(** Modelled from the spec: [Box3.getSize] and [Box3.getCenter] are three.js
    code, absent from src/. Section 3: [size = max - min],
    [center = (max + min) / 2]. *)
Definition getSize (b : Box3) : Vector3 :=
  mkVector3 (x (max b) - x (min b))%js
            (y (max b) - y (min b))%js
            (z (max b) - z (min b))%js.

Definition getCenter (b : Box3) : Vector3 :=
  mkVector3 ((x (max b) + x (min b)) / Fin 2)%js
            ((y (max b) + y (min b)) / Fin 2)%js
            ((z (max b) + z (min b)) / Fin 2)%js.

(** The eight corners of a box. *)
Definition corners (b : Box3) : list Vector3 :=
  let lo := min b in
  let hi := max b in
  [ mkVector3 (x lo) (y lo) (z lo); mkVector3 (x lo) (y lo) (z hi);
    mkVector3 (x lo) (y hi) (z lo); mkVector3 (x lo) (y hi) (z hi);
    mkVector3 (x hi) (y lo) (z lo); mkVector3 (x hi) (y lo) (z hi);
    mkVector3 (x hi) (y hi) (z lo); mkVector3 (x hi) (y hi) (z hi) ].

(** The empty box, and the smallest box around a list of points: the box
    grows by one point at a time. *)
Definition emptyBox : Box3 :=
  mkBox3 (mkVector3 PInf PInf PInf) (mkVector3 NInf NInf NInf).

Definition expandByPoint (b : Box3) (p : Vector3) : Box3 :=
  mkBox3 (mkVector3 (min2 (x (min b)) (x p))
                    (min2 (y (min b)) (y p))
                    (min2 (z (min b)) (z p)))
         (mkVector3 (max2 (x (max b)) (x p))
                    (max2 (y (max b)) (y p))
                    (max2 (z (max b)) (z p))).

Definition setFromPoints (ps : list Vector3) : Box3 :=
  fold_left expandByPoint ps emptyBox.

(** A scene object as far as the components write it: a uniform scale and a
    position. A point of the object lands at [scale * p + position]. *)
Record Object3D : Type := mkObject3D { scale : Vector3; position : Vector3 }.

Definition localToWorld (o : Object3D) (p : Vector3) : Vector3 :=
  mkVector3 (x (scale o) * x p + x (position o))%js
            (y (scale o) * y p + y (position o))%js
            (z (scale o) * z p + z (position o))%js.

End THREE.

Import THREE.

(** A vector of three finite coordinates. *)
Definition fin3 (a b c : R) : Vector3 := mkVector3 (Fin a) (Fin b) (Fin c).

(** Canvas size in pixels, [useThree().size]. *)
Record Size : Type := mkSize { width : number; height : number }.

(* ================================================================== *)
(** * ThreeSuitCanvas.tsx *)
(* ================================================================== *)

(** A [MotionValue<number>] prop is modelled by the value it holds: the
    components copy every change of it into their own state
    ([useMotionValueEvent ... "change"]), and the frame callbacks read that
    state. *)

Record ModelConfig : Type := mkModelConfig {
  yOffset : number;
  scaleMultiplier : number;
  targetSize : number;
  desktopPivotOffsetX : number
}.

Definition MODEL_CONFIG : ModelConfig :=
  {| yOffset := Fin 0;
     scaleMultiplier := Fin 1.0;
     targetSize := Fin 3;
     desktopPivotOffsetX := Fin 0.5 |}.

Record CameraConfig : Type := mkCameraConfig {
  fov : number;
  near : number;
  far : number;
  defaultPosition : Vector3;
  defaultZoom : number
}.

Definition CAMERA_CONFIG : CameraConfig :=
  {| fov := Fin 45;
     near := Fin 0.1;
     far := Fin 100;
     defaultPosition := fin3 2 1.6 5;
     defaultZoom := Fin 1.15 |}.

(** ** SuitModel *)

Module SuitModel.
Section WithConfig.

(** The module constant [MODEL_CONFIG], read by the component. *)
Variable MODEL_CONFIG : ModelConfig.

(** [const isDesktop = viewport.width >= 768]. *)
Definition isDesktop (viewport : Size) : bool := ge (width viewport) (Fin 768).

(** The body of [processedScene]. [box] is
    [new THREE.Box3().setFromObject(clonedScene)]; the result is the scale
    and the position written to the cloned scene. The body has no guard and
    no [throw]. *)
Definition processedScene (box : Box3) (isDesktop : bool)
  : completion Object3D :=
  let size := getSize box in
  let center := getCenter box in
  let maxDimension := max3 (x size) (y size) (z size) in
  let scale :=
    ((targetSize MODEL_CONFIG / maxDimension) * scaleMultiplier MODEL_CONFIG)%js in
  let desktopPivotOffsetX :=
    if isDesktop then desktopPivotOffsetX MODEL_CONFIG else Fin 0 in
  Normal
    {| THREE.scale := setScalar scale;
       position :=
         mkVector3 (- x center * scale + desktopPivotOffsetX)%js
                   (- y center * scale + yOffset MODEL_CONFIG)%js
                   (- z center * scale)%js |}.

End WithConfig.

(** The frame callback of [SuitModel]: [groupRef] holds the group's
    [rotation.y] once the group is mounted, [currentRotation] the latest
    target. *)
Definition useFrame (currentRotation : number) (groupRef : option number)
  : option number :=
  match groupRef with
  | Some rotation_y => Some (lerp rotation_y currentRotation (Fin 0.1))
  | None => None
  end.

End SuitModel.

(** ** CameraController *)

Module CameraController.

(** What the frame callback reads and writes: the camera's position, the
    [targetPosition] ref and the three state cells fed by the props. *)
Record State : Type := mkState {
  camera_position : Vector3;
  targetPosition : Vector3;
  currentZoom : number;
  currentCameraY : number;
  currentCameraX : number
}.

Record Props : Type := mkProps {
  zoom : number;
  cameraY : number;
  cameraX : option number;
  offsetXPx : option number
}.

Section WithConfig.

Variable CAMERA_CONFIG : CameraConfig.

(** [{ zoom, cameraY, cameraX, offsetXPx = 0 }]. *)
Definition offsetXPx_or_default (p : Props) : number :=
  match offsetXPx p with Some px => px | None => Fin 0 end.

(** [const effectiveCameraX = cameraX || defaultCameraX]. *)
Definition effectiveCameraX (p : Props) : number :=
  match cameraX p with
  | Some cx => cx
  | None => x (defaultPosition CAMERA_CONFIG)
  end.

(** The state on mount. *)
Definition init (p : Props) : State :=
  {| camera_position := defaultPosition CAMERA_CONFIG;
     targetPosition := defaultPosition CAMERA_CONFIG;
     currentZoom := zoom p;
     currentCameraY := cameraY p;
     currentCameraX := effectiveCameraX p |}.

(** The target the frame callback writes to [targetPosition.current]. *)
Definition frameTarget (offsetXPx : number) (size : Size) (s : State)
  : Vector3 :=
  let fovRad := ((fov CAMERA_CONFIG * Math_PI) / Fin 180)%js in
  let baseZ := z (defaultPosition CAMERA_CONFIG) in
  let distance := (baseZ / currentZoom s)%js in
  let viewportHeightAtDist := (Fin 2 * Math_tan (fovRad / Fin 2) * distance)%js in
  let aspect := (width size / height size)%js in
  let viewportWidthAtDist := (viewportHeightAtDist * aspect)%js in
  let worldOffsetX := ((offsetXPx / width size) * viewportWidthAtDist)%js in
  mkVector3 (currentCameraX s + worldOffsetX)%js (currentCameraY s) distance.

(** The frame callback. [camera.lookAt] turns the camera and leaves its
    position alone; orientation is not part of the state. The body has no
    guard and no [throw]. *)
Definition useFrame (offsetXPx : number) (size : Size) (s : State)
  : completion State :=
  let target := frameTarget offsetXPx size s in
  Normal
    {| camera_position := Vector3_lerp (camera_position s) target (Fin 0.05);
       targetPosition := target;
       currentZoom := currentZoom s;
       currentCameraY := currentCameraY s;
       currentCameraX := currentCameraX s |}.

End WithConfig.
End CameraController.

(** ** ThreeSuitCanvas and SceneContent *)

Module ThreeSuitCanvas.

Record Props : Type := mkProps {
  rotationY : number;
  zoom : number;
  cameraY : option number;
  cameraX : option number;
  offsetXPx : option number
}.

Section WithConfig.

Variable CAMERA_CONFIG : CameraConfig.

(** [offsetXPx = -400] in the parameter list. *)
Definition offsetXPx_or_default (p : Props) : number :=
  match offsetXPx p with Some px => px | None => Fin (-400) end.

(** [const effectiveCameraY = cameraY || defaultCameraY]. *)
Definition effectiveCameraY (p : Props) : number :=
  match cameraY p with
  | Some cy => cy
  | None => y (defaultPosition CAMERA_CONFIG)
  end.

(** The props [SceneContent] hands to [CameraController]. *)
Definition cameraControllerProps (p : Props) : CameraController.Props :=
  {| CameraController.zoom := zoom p;
     CameraController.cameraY := effectiveCameraY p;
     CameraController.cameraX := cameraX p;
     CameraController.offsetXPx := Some (offsetXPx_or_default p) |}.

(** One rendered frame of the canvas' camera. *)
Definition cameraFrame (p : Props) (size : Size) (s : CameraController.State)
  : completion CameraController.State :=
  let cp := cameraControllerProps p in
  CameraController.useFrame CAMERA_CONFIG
    (CameraController.offsetXPx_or_default cp) size s.

End WithConfig.
End ThreeSuitCanvas.

(** ** SuitBackgroundScene.tsx *)

Module SuitBackgroundScene.

(** The props the background scene hands to the canvas: rotation, zoom and
    the optional camera height; [cameraX] and [offsetXPx] are not passed. *)
Definition canvasProps (rotationY zoom : number) (cameraY : option number)
  : ThreeSuitCanvas.Props :=
  {| ThreeSuitCanvas.rotationY := rotationY;
     ThreeSuitCanvas.zoom := zoom;
     ThreeSuitCanvas.cameraY := cameraY;
     ThreeSuitCanvas.cameraX := None;
     ThreeSuitCanvas.offsetXPx := None |}.

(** [const effectiveOpacity = opacity || defaultOpacity], the opacity of the
    layer that holds the canvas; the default is 1. *)
Definition effectiveOpacity (opacity : option number) : number :=
  match opacity with
  | Some o => o
  | None => Fin 1
  end.

End SuitBackgroundScene.

(* ================================================================== *)
(** * useSuitScrollAnimation.ts *)
(* ================================================================== *)

Module Keyframes.

(** One entry of [KEYFRAMES]. The authored values are finite literals. *)
Record Section_ : Type := mkSection {
  scrollStart : R;
  scrollEnd : R;
  rotationY : R;
  zoom : R;
  cameraY : R;
  cameraX : R;
  opacity : R
}.

Definition hero : Section_ :=
  {| scrollStart := 0.0; scrollEnd := 0.2; rotationY := 0.35; zoom := 3.0;
     cameraY := 1.6; cameraX := 1.5; opacity := 1.0 |}.

Definition craft : Section_ :=
  {| scrollStart := 0.2; scrollEnd := 0.45; rotationY := 1.2; zoom := 1.08;
     cameraY := 1.65; cameraX := 1.5; opacity := 1.0 |}.

Definition collection : Section_ :=
  {| scrollStart := 0.45; scrollEnd := 0.7; rotationY := PI * 0.75;
     zoom := 0.95; cameraY := 1.7; cameraX := 1.3; opacity := 1.0 |}.

Definition experience : Section_ :=
  {| scrollStart := 0.7; scrollEnd := 0.85; rotationY := 2.0; zoom := 1.02;
     cameraY := 1.75; cameraX := 1.2; opacity := 1.0 |}.

Definition contact : Section_ :=
  {| scrollStart := 0.85; scrollEnd := 1.0; rotationY := 2.2; zoom := 0.98;
     cameraY := 1.8; cameraX := 1.0; opacity := 0.0 |}.

(** The six arrays [getInterpolationArrays] fills and returns. *)
Record Arrays : Type := mkArrays {
  scrollBreakpoints : list R;
  rotationValues : list R;
  zoomValues : list R;
  cameraYValues : list R;
  cameraXValues : list R;
  opacityValues : list R
}.

(** [a.push(v)]. *)
Definition push (a : list R) (v : R) : list R := a ++ [v].

(** Pushes one sample of [section] at progress [p] to every array. *)
Definition pushSample (acc : Arrays) (p : R) (section : Section_) : Arrays :=
  {| scrollBreakpoints := push (scrollBreakpoints acc) p;
     rotationValues := push (rotationValues acc) (rotationY section);
     zoomValues := push (zoomValues acc) (zoom section);
     cameraYValues := push (cameraYValues acc) (cameraY section);
     cameraXValues := push (cameraXValues acc) (cameraX section);
     opacityValues := push (opacityValues acc) (opacity section) |}.

(** The [forEach] callback: the start point of every section, and the end
    point of the last one only. *)
Definition visit (len : nat) (acc : Arrays) (index : nat) (section : Section_)
  : Arrays :=
  let acc' := pushSample acc (scrollStart section) section in
  if Nat.eqb index (len - 1) then pushSample acc' (scrollEnd section) section
  else acc'.

Fixpoint forEach (len : nat) (sections : list Section_) (index : nat)
  (acc : Arrays) : Arrays :=
  match sections with
  | [] => acc
  | section :: rest => forEach len rest (S index) (visit len acc index section)
  end.

Definition arraysOf (sections : list Section_) : Arrays :=
  forEach (length sections) sections 0%nat (mkArrays [] [] [] [] [] []).

(** [const sections = [KEYFRAMES.hero, ..., KEYFRAMES.contact]]. *)
Definition sections : list Section_ :=
  [hero; craft; collection; experience; contact].

Definition getInterpolationArrays : Arrays := arraysOf sections.

(** Modelled from the spec: [useTransform] is framer-motion code, absent
    from src/. Section 4.1: progress at or below the first breakpoint gives
    the first value, at or above the last breakpoint the last value; between
    two consecutive breakpoints [(p0,v0)], [(p1,v1)] with [p0 <= progress <= p1]
    the value is [v0 + (v1-v0) * (progress-p0)/(p1-p0)], and [v0] when
    [p1 = p0]. A table without breakpoints has no value to give. *)
Fixpoint interpolateFrom (p0 v0 : R) (rest : list (R * R)) (progress : R) : R :=
  match rest with
  | [] => v0
  | (p1, v1) :: rest' =>
      if Rle_dec progress p1 then
        if Req_dec_T p1 p0 then v0
        else v0 + (v1 - v0) * (progress - p0) / (p1 - p0)
      else interpolateFrom p1 v1 rest' progress
  end.

Definition interpolate (table : list (R * R)) (progress : R) : option R :=
  match table with
  | [] => None
  | (p0, v0) :: rest =>
      Some (if Rle_dec progress p0 then v0
            else interpolateFrom p0 v0 rest progress)
  end.

(** [useTransform(scrollYProgress, input, output)], read at one progress. *)
Definition useTransform (scrollYProgress : R) (input output : list R)
  : option R :=
  interpolate (combine input output) scrollYProgress.

(** The five channels of [useSuitScrollAnimation]. *)
Inductive Channel : Type :=
| RotationY | Zoom | CameraY | CameraX | Opacity.

Definition valuesOf (c : Channel) (interpolation : Arrays) : list R :=
  match c with
  | RotationY => rotationValues interpolation
  | Zoom => zoomValues interpolation
  | CameraY => cameraYValues interpolation
  | CameraX => cameraXValues interpolation
  | Opacity => opacityValues interpolation
  end.

Definition useSuitScrollAnimation (c : Channel) (scrollYProgress : R)
  : option R :=
  let interpolation := getInterpolationArrays in
  useTransform scrollYProgress (scrollBreakpoints interpolation)
    (valuesOf c interpolation).

End Keyframes.

(* ================================================================== *)
(** * The camera law in the specification's words *)
(* ================================================================== *)

Module Spec.

Record AnimationState : Type := mkAnimationState {
  rotation : R;
  zoom : R;
  cameraVerticalOffset : R;
  cameraHorizontalOffset : R;
  opacity : R
}.

Definition Position : Type := (R * R * R)%type.

Definition lerp (a b t : R) : R := a + (b - a) * t.

Definition lerp3 (p q : Position) (t : R) : Position :=
  let '(px, py, pz) := p in
  let '(qx, qy, qz) := q in
  (lerp px qx t, lerp py qy t, lerp pz qz t).

Section Advance.

Variables (target : AnimationState).
Variables (viewportWidth viewportHeight fovDegrees baseDistance
           pixelOffsetX : R).

Definition distance : R := baseDistance / zoom target.
Definition fovRadians : R := fovDegrees * PI / 180.
Definition worldViewportHeightAtDistance : R :=
  2 * tan (fovRadians / 2) * distance.
Definition worldViewportWidthAtDistance : R :=
  worldViewportHeightAtDistance * (viewportWidth / viewportHeight).
Definition worldOffsetX : R :=
  (pixelOffsetX / viewportWidth) * worldViewportWidthAtDistance.
Definition targetPosition : Position :=
  (cameraHorizontalOffset target + worldOffsetX,
   cameraVerticalOffset target,
   distance).

Definition advance (previousCameraPosition : Position)
  (smoothingFactor : R) : Position :=
  lerp3 previousCameraPosition targetPosition smoothingFactor.

End Advance.
End Spec.

(** A position of finite coordinates as the vector the code holds. *)
Definition ofPosition (p : Spec.Position) : Vector3 :=
  let '(a, b, c) := p in fin3 a b c.

(** The state cells of the camera controller that hold an animation state. *)
Definition cameraState (position : Spec.Position) (targetRef : Vector3)
  (a : Spec.AnimationState) : CameraController.State :=
  {| CameraController.camera_position := ofPosition position;
     CameraController.targetPosition := targetRef;
     CameraController.currentZoom := Fin (Spec.zoom a);
     CameraController.currentCameraY := Fin (Spec.cameraVerticalOffset a);
     CameraController.currentCameraX := Fin (Spec.cameraHorizontalOffset a) |}.

(** A camera configuration of finite values. *)
Definition cameraConfig (fovDegrees baseDistance : R) (c : CameraConfig)
  : CameraConfig :=
  {| fov := Fin fovDegrees;
     near := near c;
     far := far c;
     defaultPosition :=
       mkVector3 (x (defaultPosition c)) (y (defaultPosition c))
                 (Fin baseDistance);
     defaultZoom := defaultZoom c |}.

(* ================================================================== *)
(** * Runs, measures and sample inputs of the statements *)
(* ================================================================== *)

(** The camera state on mount under the background scene's props at the
    hero keyframe. *)
Definition mountedAtHero : CameraController.State :=
  CameraController.init CAMERA_CONFIG
    (ThreeSuitCanvas.cameraControllerProps CAMERA_CONFIG
       (SuitBackgroundScene.canvasProps (Fin 0.35) (Fin 3) (Some (Fin 1.6)))).

(** The largest dimension of a box, as [processedScene] takes it. *)
Definition maxDimension (b : Box3) : number :=
  max3 (x (getSize b)) (y (getSize b)) (z (getSize b)).

(** The box around the images of a box's corners under an object's scale
    and position. *)
Definition imageBox (o : Object3D) (b : Box3) : Box3 :=
  setFromPoints (map (localToWorld o) (corners b)).

(** A model configuration of finite values. *)
Definition modelConfig (targetSize scaleMultiplier yOffset pivotOffsetX : R)
  : ModelConfig :=
  {| yOffset := Fin yOffset;
     scaleMultiplier := Fin scaleMultiplier;
     targetSize := Fin targetSize;
     desktopPivotOffsetX := Fin pivotOffsetX |}.

(** The largest dimension of a box of finite corners, as a real. *)
Definition maxDimensionR (x0 y0 z0 x1 y1 z1 : R) : R :=
  Rmax (Rmax (x1 - x0) (y1 - y0)) (z1 - z0).

(** The pivot the layout selects. *)
Definition pivotOf (isDesktop : bool) (pivotOffsetX : R) : R :=
  if isDesktop then pivotOffsetX else 0.

Definition pointBox : Box3 := mkBox3 (fin3 0 0 0) (fin3 0 0 0).

Definition unitBox : Box3 := mkBox3 (fin3 0 0 0) (fin3 1 1 1).

(** [n] rendered frames of the camera controller, one callback after the
    other on the same state cells. *)
Fixpoint cameraFrames (c : CameraConfig) (offsetXPx : number) (size : Size)
  (n : nat) (s : CameraController.State) : completion CameraController.State :=
  match n with
  | O => Normal s
  | S k =>
      match cameraFrames c offsetXPx size k s with
      | Normal s' => CameraController.useFrame c offsetXPx size s'
      | Throw e => Throw e
      end
  end.

(** [n] rendered frames of the suit model's rotation. *)
Fixpoint rotationFrames (currentRotation : number) (n : nat)
  (groupRef : option number) : option number :=
  match n with
  | O => groupRef
  | S k =>
      SuitModel.useFrame currentRotation
        (rotationFrames currentRotation k groupRef)
  end.

(** The value [n] smoothing steps of factor [alpha] reach from [start]. *)
Definition relaxed (alpha target start : R) (n : nat) : R :=
  target + (1 - alpha) ^ n * (start - target).

Definition relaxed3 (alpha : R) (target start : Spec.Position) (n : nat)
  : Spec.Position :=
  let '(tx, ty, tz) := target in
  let '(sx, sy, sz) := start in
  (relaxed alpha tx sx n, relaxed alpha ty sy n, relaxed alpha tz sz n).

(** Euclidean distance of two positions. *)
Definition dist (p q : Spec.Position) : R :=
  let '(px, py, pz) := p in
  let '(qx, qy, qz) := q in
  sqrt ((px - qx) ^ 2 + (py - qy) ^ 2 + (pz - qz) ^ 2).

(** Componentwise order of positions. *)
Definition below (p q : Spec.Position) : Prop :=
  let '(px, py, pz) := p in
  let '(qx, qy, qz) := q in
  px <= qx /\ py <= qy /\ pz <= qz.

(** The least and the greatest element of a list of reals. *)
Definition minimum (l : list R) : R :=
  match l with
  | [] => 0
  | a :: rest => fold_left Rmin rest a
  end.

Definition maximum (l : list R) : R :=
  match l with
  | [] => 0
  | a :: rest => fold_left Rmax rest a
  end.

(** The value a section authors for a channel. *)
Definition authored (c : Keyframes.Channel) (s : Keyframes.Section_) : R :=
  match c with
  | Keyframes.RotationY => Keyframes.rotationY s
  | Keyframes.Zoom => Keyframes.zoom s
  | Keyframes.CameraY => Keyframes.cameraY s
  | Keyframes.CameraX => Keyframes.cameraX s
  | Keyframes.Opacity => Keyframes.opacity s
  end.

(** The hero keyframe as an animation state, and the camera at its default
    position. *)
Definition heroState : Spec.AnimationState :=
  Spec.mkAnimationState 0.35 3 1.6 1.5 1.

Definition defaultCamera : Spec.Position := (2, 1.6, 5).

(* ================================================================== *)
(** * The earlier canvas, src/components/ThreeSuitCanvas.tsx *)
(* ================================================================== *)

(** The earlier version of the component has no [cameraX], no [offsetXPx]
    and no pivot; its [MODEL_CONFIG] has no [desktopPivotOffsetX], a field
    the functions below do not read. *)

Module Earlier.

Module SuitModel.
Section WithConfig.

Variable MODEL_CONFIG : ModelConfig.

Definition processedScene (box : Box3) : completion Object3D :=
  let size := getSize box in
  let center := getCenter box in
  let maxDimension := max3 (x size) (y size) (z size) in
  let scale :=
    ((targetSize MODEL_CONFIG / maxDimension) * scaleMultiplier MODEL_CONFIG)%js in
  Normal
    {| THREE.scale := setScalar scale;
       position :=
         mkVector3 (- x center * scale)%js
                   (- y center * scale + yOffset MODEL_CONFIG)%js
                   (- z center * scale)%js |}.

End WithConfig.
End SuitModel.

Module CameraController.

Record State : Type := mkState {
  camera_position : Vector3;
  targetPosition : Vector3;
  currentZoom : number;
  currentCameraY : number
}.

Record Props : Type := mkProps {
  zoom : number;
  cameraY : number
}.

Section WithConfig.

Variable CAMERA_CONFIG : CameraConfig.

Definition init (p : Props) : State :=
  {| camera_position := defaultPosition CAMERA_CONFIG;
     targetPosition := defaultPosition CAMERA_CONFIG;
     currentZoom := zoom p;
     currentCameraY := cameraY p |}.

(** The frame callback writes z and y of the target and leaves its x as the
    ref holds it. *)
Definition useFrame (s : State) : completion State :=
  let baseZ := z (defaultPosition CAMERA_CONFIG) in
  let target :=
    mkVector3 (x (targetPosition s)) (currentCameraY s)
              (baseZ / currentZoom s)%js in
  Normal
    {| camera_position := Vector3_lerp (camera_position s) target (Fin 0.05);
       targetPosition := target;
       currentZoom := currentZoom s;
       currentCameraY := currentCameraY s |}.

Fixpoint frames (n : nat) (s : State) : completion State :=
  match n with
  | O => Normal s
  | S k =>
      match frames k s with
      | Normal s' => useFrame s'
      | Throw e => Throw e
      end
  end.

End WithConfig.
End CameraController.

Module ThreeSuitCanvas.

Record Props : Type := mkProps {
  rotationY : number;
  zoom : number;
  cameraY : option number
}.

Section WithConfig.

Variable CAMERA_CONFIG : CameraConfig.

(** [const effectiveCameraY = cameraY || defaultCameraY]. *)
Definition effectiveCameraY (p : Props) : number :=
  match cameraY p with
  | Some cy => cy
  | None => y (defaultPosition CAMERA_CONFIG)
  end.

(** The props [SceneContent] hands to [CameraController]. *)
Definition cameraControllerProps (p : Props) : CameraController.Props :=
  {| CameraController.zoom := zoom p;
     CameraController.cameraY := effectiveCameraY p |}.

End WithConfig.
End ThreeSuitCanvas.

End Earlier.

(* ================================================================== *)
(** * src/app/page.tsx *)
(* ================================================================== *)

Module Home.

(** [const { rotationY, zoom, cameraY, opacity } = useSuitScrollAnimation()]
    and the props handed to [SuitBackgroundScene], which hands rotation, zoom
    and camera height on to the canvas it imports from [./ThreeSuitCanvas],
    the canvas of [src/components/ThreeSuitCanvas.tsx]. The hook's [cameraX]
    is not taken. *)
Definition canvasProps (scrollYProgress : R)
  : option Earlier.ThreeSuitCanvas.Props :=
  match Keyframes.useSuitScrollAnimation Keyframes.RotationY scrollYProgress,
        Keyframes.useSuitScrollAnimation Keyframes.Zoom scrollYProgress,
        Keyframes.useSuitScrollAnimation Keyframes.CameraY scrollYProgress with
  | Some rotationY, Some zoom, Some cameraY =>
      Some (Earlier.ThreeSuitCanvas.mkProps (Fin rotationY) (Fin zoom)
              (Some (Fin cameraY)))
  | _, _, _ => None
  end.

(** The camera controller's state cells under given canvas props, with the
    camera at [position] and the target ref holding [targetRef]. *)
Definition cameraCells (p : Earlier.ThreeSuitCanvas.Props)
  (position targetRef : Vector3) : Earlier.CameraController.State :=
  let cp := Earlier.ThreeSuitCanvas.cameraControllerProps CAMERA_CONFIG p in
  {| Earlier.CameraController.camera_position := position;
     Earlier.CameraController.targetPosition := targetRef;
     Earlier.CameraController.currentZoom := Earlier.CameraController.zoom cp;
     Earlier.CameraController.currentCameraY :=
       Earlier.CameraController.cameraY cp |}.

(** The opacity of the canvas layer: the hook's [opacity] is handed to
    [SuitBackgroundScene]. *)
Definition sceneOpacity (scrollYProgress : R) : number :=
  SuitBackgroundScene.effectiveOpacity
    (option_map Fin
       (Keyframes.useSuitScrollAnimation Keyframes.Opacity scrollYProgress)).

End Home.

(** A section with another [scrollEnd]. *)
Definition withScrollEnd (e : R) (s : Keyframes.Section_) : Keyframes.Section_ :=
  {| Keyframes.scrollStart := Keyframes.scrollStart s;
     Keyframes.scrollEnd := e;
     Keyframes.rotationY := Keyframes.rotationY s;
     Keyframes.zoom := Keyframes.zoom s;
     Keyframes.cameraY := Keyframes.cameraY s;
     Keyframes.cameraX := Keyframes.cameraX s;
     Keyframes.opacity := Keyframes.opacity s |}.

(** Sections that follow one another without gap or overlap. *)
Fixpoint contiguous (sections : list Keyframes.Section_) : Prop :=
  match sections with
  | a :: (b :: _) as rest =>
      Keyframes.scrollEnd a = Keyframes.scrollStart b /\ contiguous rest
  | _ => True
  end.

(** Every section covers a scroll range of positive width. *)
Definition positiveWidth (sections : list Keyframes.Section_) : Prop :=
  Forall (fun s => Keyframes.scrollStart s < Keyframes.scrollEnd s) sections.

(** The raw box moved by [(dx, dy, dz)] after a rescaling by [k]. *)
Definition rescaledBox (k dx dy dz x0 y0 z0 x1 y1 z1 : R) : Box3 :=
  mkBox3 (fin3 (k * x0 + dx) (k * y0 + dy) (k * z0 + dz))
         (fin3 (k * x1 + dx) (k * y1 + dy) (k * z1 + dz)).

(* ================================================================== *)
(** * Arithmetic of finite numbers *)
(* ================================================================== *)

Lemma div_fin (a b : R) : b <> 0 -> (Fin a / Fin b)%js = Fin (a / b).
Proof.
  intros Hb. unfold div. destruct (Req_dec_T b 0) as [E | _]; [contradiction | reflexivity].
Qed.

(** Rewrites every quotient of finite numbers whose divisor is visibly
    non-zero. *)
Ltac fin_div :=
  repeat match goal with
         | |- context [div (Fin ?a) (Fin ?b)] =>
             rewrite (div_fin a b) by (assumption || lra)
         end.

Lemma div_zero (a : R) : (Fin a / Fin 0)%js = signed_inf a.
Proof.
  unfold div. destruct (Req_dec_T 0 0) as [_ | N]; [reflexivity | now elim N].
Qed.

Lemma signed_inf_pos (r : R) : 0 < r -> signed_inf r = PInf.
Proof.
  intros H. unfold signed_inf. destruct (Rlt_dec 0 r); [reflexivity | contradiction].
Qed.

Lemma signed_inf_neg (r : R) : r < 0 -> signed_inf r = NInf.
Proof.
  intros H. unfold signed_inf.
  destruct (Rlt_dec 0 r); [lra |]. destruct (Rlt_dec r 0); [reflexivity | contradiction].
Qed.

Lemma signed_inf_zero : signed_inf 0 = NaN.
Proof.
  unfold signed_inf.
  destruct (Rlt_dec 0 0); [lra |]. destruct (Rlt_dec 0 0); [lra | reflexivity].
Qed.

Lemma signed_inf_of_zero (r : R) : r = 0 -> signed_inf r = NaN.
Proof. intros ->. apply signed_inf_zero. Qed.

Lemma signed_inf_not_finite (r : R) : isFinite (signed_inf r) = false.
Proof.
  unfold signed_inf. destruct (Rlt_dec 0 r); [reflexivity |].
  destruct (Rlt_dec r 0); reflexivity.
Qed.

Lemma lerp_fin (a b t : R) :
  THREE.lerp (Fin a) (Fin b) (Fin t) = Fin (Spec.lerp a b t).
Proof. reflexivity. Qed.

Lemma PI8_tan_pos : 0 < tan (45 * PI / 180 / 2).
Proof.
  pose proof PI_RGT_0 as HPI.
  apply tan_gt_0; lra.
Qed.

(* ================================================================== *)
(** * The camera controller *)
(* ================================================================== *)

(** On finite inputs the target the frame callback writes is the
    specification's target position. *)
Lemma frameTarget_finite :
  forall (c : CameraConfig) (fovDegrees baseDistance pixelOffsetX : R)
         (viewportWidth viewportHeight : R)
         (previous : Spec.Position) (targetRef : Vector3)
         (a : Spec.AnimationState),
    0 < viewportWidth -> 0 < viewportHeight -> Spec.zoom a <> 0 ->
    CameraController.frameTarget (cameraConfig fovDegrees baseDistance c)
      (Fin pixelOffsetX) (mkSize (Fin viewportWidth) (Fin viewportHeight))
      (cameraState previous targetRef a)
    = ofPosition
        (Spec.targetPosition a viewportWidth viewportHeight fovDegrees
           baseDistance pixelOffsetX).
Proof.
  intros c fovDegrees baseDistance pixelOffsetX w h previous targetRef a Hw Hh Hz.
  unfold CameraController.frameTarget, cameraState.
  cbn [fov defaultPosition cameraConfig width height z
       CameraController.currentZoom CameraController.currentCameraX
       CameraController.currentCameraY Math_PI Math_tan mul].
  fin_div. cbn [Math_tan mul add]. fin_div.
  reflexivity.
Qed.

(** C1. On every frame with positive viewport dimensions and a non-zero zoom
    the frame callback computes exactly the specification's chain: distance,
    field of view in radians, world viewport height and width at that
    distance, world offset of the pixel bias, the target position, and the
    new camera position as the lerp of the previous one toward the target
    with the fixed factor 0.05. *)
Theorem camera_frame_refines_advance :
  forall (c : CameraConfig) (fovDegrees baseDistance pixelOffsetX : R)
         (viewportWidth viewportHeight : R)
         (previous : Spec.Position) (targetRef : Vector3)
         (a : Spec.AnimationState),
    0 < viewportWidth -> 0 < viewportHeight -> Spec.zoom a <> 0 ->
    CameraController.useFrame (cameraConfig fovDegrees baseDistance c)
      (Fin pixelOffsetX) (mkSize (Fin viewportWidth) (Fin viewportHeight))
      (cameraState previous targetRef a)
    = Normal
        (cameraState
           (Spec.advance a viewportWidth viewportHeight fovDegrees baseDistance
              pixelOffsetX previous 0.05)
           (ofPosition
              (Spec.targetPosition a viewportWidth viewportHeight fovDegrees
                 baseDistance pixelOffsetX))
           a).
Proof.
  intros c fovDegrees baseDistance pixelOffsetX w h previous targetRef a Hw Hh Hz.
  unfold CameraController.useFrame.
  rewrite frameTarget_finite by assumption.
  destruct previous as [[px py] pz].
  reflexivity.
Qed.

Lemma camera_frame_refines_advance_witness :
  CameraController.useFrame (cameraConfig 45 5 CAMERA_CONFIG)
    (Fin (-400)) (mkSize (Fin 1920) (Fin 1080))
    (cameraState defaultCamera (fin3 2 1.6 5) heroState)
  = Normal
      (cameraState
         (Spec.advance heroState 1920 1080 45 5 (-400) defaultCamera 0.05)
         (ofPosition (Spec.targetPosition heroState 1920 1080 45 5 (-400)))
         heroState).
Proof.
  apply camera_frame_refines_advance; simpl; lra.
Defined.

(** ** Non-finite values spread through the arithmetic *)

Lemma div_by_zero_not_finite (a : number) : isFinite (a / Fin 0)%js = false.
Proof.
  destruct a; try reflexivity.
  - rewrite div_zero. apply signed_inf_not_finite.
  - simpl. destruct (Rlt_dec 0 0); reflexivity.
  - simpl. destruct (Rlt_dec 0 0); reflexivity.
Qed.

Lemma mul_not_finite_r (a b : number) :
  isFinite b = false -> isFinite (a * b)%js = false.
Proof.
  destruct a, b; simpl; intros H; try discriminate H; try reflexivity;
    apply signed_inf_not_finite.
Qed.

Lemma mul_not_finite_l (a b : number) :
  isFinite a = false -> isFinite (a * b)%js = false.
Proof.
  destruct a, b; simpl; intros H; try discriminate H; try reflexivity;
    apply signed_inf_not_finite.
Qed.

Lemma add_not_finite_r (a b : number) :
  isFinite b = false -> isFinite (a + b)%js = false.
Proof.
  destruct a, b; simpl; intros H; try discriminate H; reflexivity.
Qed.

Lemma sub_not_finite_l (a b : number) :
  isFinite a = false -> isFinite (a - b)%js = false.
Proof.
  destruct a, b; simpl; intros H; try discriminate H; reflexivity.
Qed.

Lemma lerp_not_finite_target (a b t : number) :
  isFinite b = false -> isFinite (THREE.lerp a b t) = false.
Proof.
  intros H. unfold THREE.lerp.
  apply add_not_finite_r, mul_not_finite_l, sub_not_finite_l, H.
Qed.

(** C3, as the code has it. With a viewport height of zero the frame
    callback completes without throwing, but it does not keep the previous
    position: the aspect ratio is a division by zero, so the x component of
    the new position is never finite, while y and z move toward the vertical
    offset and the distance as on any other frame. *)
Theorem zero_height_frame :
  forall (c : CameraConfig) (offsetXPx viewportWidth : number)
         (s : CameraController.State),
  exists s' : CameraController.State,
    CameraController.useFrame c offsetXPx (mkSize viewportWidth (Fin 0)) s
      = Normal s'
    /\ isFinite (x (CameraController.camera_position s')) = false
    /\ y (CameraController.camera_position s')
       = THREE.lerp (y (CameraController.camera_position s))
           (CameraController.currentCameraY s) (Fin 0.05)
    /\ z (CameraController.camera_position s')
       = THREE.lerp (z (CameraController.camera_position s))
           (z (defaultPosition c) / CameraController.currentZoom s)%js
           (Fin 0.05).
Proof.
  intros c offsetXPx w s. eexists. split; [reflexivity |].
  split; [| split; reflexivity].
  cbn [CameraController.camera_position Vector3_lerp x
       CameraController.frameTarget width height].
  apply lerp_not_finite_target, add_not_finite_r, mul_not_finite_r,
    mul_not_finite_r, div_by_zero_not_finite.
Qed.

(** C3 fails as stated: at height 0 the camera's x leaves the previous
    position 2 for [-Infinity]. *)
Lemma zero_height_frame_moves_camera :
  exists s' : CameraController.State,
    ThreeSuitCanvas.cameraFrame CAMERA_CONFIG
      (SuitBackgroundScene.canvasProps (Fin 0.35) (Fin 3) (Some (Fin 1.6)))
      (mkSize (Fin 800) (Fin 0)) mountedAtHero = Normal s'
    /\ x (CameraController.camera_position mountedAtHero) = Fin 2
    /\ x (CameraController.camera_position s') = NInf
    /\ CameraController.camera_position s'
       <> CameraController.camera_position mountedAtHero.
Proof.
  eexists. split; [reflexivity |].
  assert (Hx : x (Vector3_lerp (fin3 2 1.6 5)
                   (CameraController.frameTarget CAMERA_CONFIG (Fin (-400))
                      (mkSize (Fin 800) (Fin 0)) mountedAtHero) (Fin 0.05))
               = NInf).
  { unfold mountedAtHero, SuitBackgroundScene.canvasProps.
    cbn [x Vector3_lerp fin3 CameraController.frameTarget
         CameraController.init CameraController.currentCameraX
         CameraController.currentZoom CameraController.effectiveCameraX
         ThreeSuitCanvas.cameraControllerProps CameraController.cameraX
         CameraController.zoom ThreeSuitCanvas.cameraX ThreeSuitCanvas.zoom
         CAMERA_CONFIG defaultPosition fov width height z Math_PI mul].
    rewrite div_zero, (signed_inf_pos 800) by lra.
    fin_div. cbn [Math_tan mul].
    rewrite (signed_inf_pos (2 * tan (45 * PI / 180 / 2) * (5 / 3))).
    2:{ pose proof PI8_tan_pos. nra. }
    cbn [mul]. rewrite signed_inf_neg by lra.
    unfold THREE.lerp. cbn [add sub neg mul].
    rewrite signed_inf_neg by lra. reflexivity. }
  split; [reflexivity |]. split; [exact Hx |].
  intros E.
  apply (f_equal x) in E.
  cbn [CameraController.camera_position] in E.
  change (CameraController.camera_position mountedAtHero) with (fin3 2 1.6 5) in E.
  unfold ThreeSuitCanvas.cameraControllerProps, CameraController.offsetXPx_or_default,
    ThreeSuitCanvas.offsetXPx_or_default, SuitBackgroundScene.canvasProps in E.
  cbn [CameraController.offsetXPx ThreeSuitCanvas.offsetXPx] in E.
  rewrite Hx in E. discriminate E.
Qed.

Lemma world_width_pos (a : Spec.AnimationState) (w h : R) :
  0 < w -> 0 < h -> 0 < Spec.zoom a ->
  0 < Spec.worldViewportWidthAtDistance a w h 45 5.
Proof.
  intros Hw Hh Hz.
  unfold Spec.worldViewportWidthAtDistance, Spec.worldViewportHeightAtDistance,
    Spec.distance, Spec.fovRadians.
  pose proof PI8_tan_pos as Ht.
  assert (0 < 5 / Spec.zoom a) by (apply Rdiv_lt_0_compat; lra).
  assert (0 < w / h) by (apply Rdiv_lt_0_compat; lra).
  apply Rmult_lt_0_compat; [apply Rmult_lt_0_compat |]; lra.
Qed.

(** C10. When the canvas is given no [offsetXPx], the camera controller
    runs with -400 pixels: on every frame the target's x is the horizontal
    offset minus 400/viewportWidth of the world-space viewport width at the
    current distance, which for a positive zoom lies strictly left of the
    unshifted offset. *)
Theorem default_offset_shifts_target_left :
  forall (p : ThreeSuitCanvas.Props) (viewportWidth viewportHeight : R)
         (previous : Spec.Position) (targetRef : Vector3)
         (a : Spec.AnimationState),
    ThreeSuitCanvas.offsetXPx p = None ->
    0 < viewportWidth -> 0 < viewportHeight -> Spec.zoom a <> 0 ->
    ThreeSuitCanvas.offsetXPx_or_default p = Fin (-400)
    /\ exists s' : CameraController.State,
         ThreeSuitCanvas.cameraFrame CAMERA_CONFIG p
           (mkSize (Fin viewportWidth) (Fin viewportHeight))
           (cameraState previous targetRef a) = Normal s'
         /\ x (CameraController.targetPosition s')
            = Fin (Spec.cameraHorizontalOffset a
                   - 400 / viewportWidth
                     * Spec.worldViewportWidthAtDistance a viewportWidth
                         viewportHeight 45 5)
         /\ (0 < Spec.zoom a ->
             Spec.cameraHorizontalOffset a
             - 400 / viewportWidth
               * Spec.worldViewportWidthAtDistance a viewportWidth
                   viewportHeight 45 5
             < Spec.cameraHorizontalOffset a).
Proof.
  intros p w h previous targetRef a Hnone Hw Hh Hz.
  split; [unfold ThreeSuitCanvas.offsetXPx_or_default; rewrite Hnone; reflexivity |].
  eexists. split; [| split].
  - unfold ThreeSuitCanvas.cameraFrame, ThreeSuitCanvas.cameraControllerProps,
      CameraController.offsetXPx_or_default, ThreeSuitCanvas.offsetXPx_or_default.
    cbn [CameraController.offsetXPx]. rewrite Hnone.
    reflexivity.
  - cbn [CameraController.targetPosition].
    change CAMERA_CONFIG with (cameraConfig 45 5 CAMERA_CONFIG).
    rewrite frameTarget_finite by (assumption || lra).
    cbn [ofPosition Spec.targetPosition fin3 x].
    f_equal. unfold Spec.worldOffsetX. lra.
  - intros Hpos.
    pose proof (world_width_pos a w h Hw Hh Hpos) as HW.
    assert (0 < 400 / w) by (apply Rdiv_lt_0_compat; lra).
    assert (0 < 400 / w * Spec.worldViewportWidthAtDistance a w h 45 5)
      by (apply Rmult_lt_0_compat; lra).
    lra.
Qed.

Lemma default_offset_shifts_target_left_witness :
  ThreeSuitCanvas.offsetXPx_or_default
    (SuitBackgroundScene.canvasProps (Fin 0.35) (Fin 3) (Some (Fin 1.6)))
  = Fin (-400)
  /\ exists s' : CameraController.State,
       ThreeSuitCanvas.cameraFrame CAMERA_CONFIG
         (SuitBackgroundScene.canvasProps (Fin 0.35) (Fin 3) (Some (Fin 1.6)))
         (mkSize (Fin 1920) (Fin 1080))
         (cameraState defaultCamera (fin3 2 1.6 5) heroState) = Normal s'
       /\ x (CameraController.targetPosition s')
          = Fin (Spec.cameraHorizontalOffset heroState
                 - 400 / 1920
                   * Spec.worldViewportWidthAtDistance heroState
                       1920 1080 45 5)
       /\ (0 < Spec.zoom heroState ->
           Spec.cameraHorizontalOffset heroState
           - 400 / 1920
             * Spec.worldViewportWidthAtDistance heroState 1920 1080 45 5
           < Spec.cameraHorizontalOffset heroState).
Proof.
  apply (default_offset_shifts_target_left
           (SuitBackgroundScene.canvasProps (Fin 0.35) (Fin 3) (Some (Fin 1.6)))
           1920 1080 defaultCamera (fin3 2 1.6 5) heroState);
    [reflexivity | lra | lra | simpl; lra].
Defined.

(* ================================================================== *)
(** * The bounding-volume normalisation of SuitModel *)
(* ================================================================== *)

(** C4, as the code has it. [processedScene] has no guard: for a largest
    dimension that is zero or not finite it raises nothing and returns a
    transform, whose scale is [Infinity] for a largest dimension of 0, [NaN]
    for [NaN] and 0 for an infinite one. *)
Theorem degenerate_geometry_returns_transform :
  forall (box : Box3) (isDesktop : bool),
    maxDimension box = Fin 0 \/ isFinite (maxDimension box) = false ->
    exists o : Object3D,
      SuitModel.processedScene MODEL_CONFIG box isDesktop = Normal o
      /\ ((maxDimension box = Fin 0 /\ scale o = setScalar PInf)
          \/ (maxDimension box = NaN /\ scale o = setScalar NaN)
          \/ ((maxDimension box = PInf \/ maxDimension box = NInf)
              /\ scale o = setScalar (Fin 0))).
Proof.
  intros box isDesktop H. eexists. split; [reflexivity |].
  cbn [scale]. fold (maxDimension box).
  cbn [targetSize scaleMultiplier MODEL_CONFIG].
  destruct H as [H0 | Hinf].
  - left. split; [exact H0 |].
    rewrite H0, div_zero, signed_inf_pos by lra.
    cbn [mul]. rewrite signed_inf_pos by lra. reflexivity.
  - destruct (maxDimension box) as [r | | |]; [discriminate Hinf | | |].
    + right. right. split; [left; reflexivity |].
      cbn [div mul]. do 2 f_equal. lra.
    + right. right. split; [right; reflexivity |].
      cbn [div mul]. do 2 f_equal. lra.
    + right. left. split; reflexivity.
Qed.

Lemma pointBox_maxDimension : maxDimension pointBox = Fin 0.
Proof.
  unfold maxDimension, max3.
  cbn [getSize pointBox fin3 x y z min max sub neg add max2]. f_equal.
  unfold Rmax. repeat destruct Rle_dec; lra.
Qed.

Lemma degenerate_geometry_returns_transform_witness :
  exists o : Object3D,
    SuitModel.processedScene MODEL_CONFIG pointBox true = Normal o
    /\ ((maxDimension pointBox = Fin 0 /\ scale o = setScalar PInf)
        \/ (maxDimension pointBox = NaN /\ scale o = setScalar NaN)
        \/ ((maxDimension pointBox = PInf \/ maxDimension pointBox = NInf)
            /\ scale o = setScalar (Fin 0))).
Proof.
  apply (degenerate_geometry_returns_transform pointBox true).
  left. unfold maxDimension, max3.
  cbn [getSize pointBox fin3 x y z min max sub neg add max2]. f_equal.
  unfold Rmax. repeat destruct Rle_dec; lra.
Defined.

(** C4 fails as stated: for the box of a single point, whose largest
    dimension is 0, no [DegenerateGeometry] is raised; the scale is
    [Infinity] and the position is [NaN]. *)
Lemma point_box_is_not_rejected :
  maxDimension pointBox = Fin 0
  /\ SuitModel.processedScene MODEL_CONFIG pointBox true
     = Normal {| scale := setScalar PInf; position := mkVector3 NaN NaN NaN |}
  /\ SuitModel.processedScene MODEL_CONFIG pointBox true
     <> Throw DegenerateGeometry.
Proof.
  split; [exact pointBox_maxDimension |].
  split; [| discriminate].
  unfold SuitModel.processedScene. fold (maxDimension pointBox).
  rewrite pointBox_maxDimension.
  cbn [targetSize scaleMultiplier MODEL_CONFIG desktopPivotOffsetX yOffset].
  rewrite div_zero, signed_inf_pos by lra.
  cbn [mul]. rewrite signed_inf_pos by lra.
  cbn [getCenter pointBox fin3 x y z min max add].
  fin_div. cbn [neg mul].
  rewrite signed_inf_of_zero by lra.
  reflexivity.
Qed.

(** ** Boxes of finite corners *)

Lemma maxDimension_finite (x0 y0 z0 x1 y1 z1 : R) :
  maxDimension (mkBox3 (fin3 x0 y0 z0) (fin3 x1 y1 z1))
  = Fin (maxDimensionR x0 y0 z0 x1 y1 z1).
Proof. reflexivity. Qed.

(** The scale and the position [processedScene] writes for a box of finite
    corners with a non-zero largest dimension. *)
Lemma processedScene_finite
  (ts sm yo pv : R) (isDesktop : bool) (x0 y0 z0 x1 y1 z1 : R) :
  maxDimensionR x0 y0 z0 x1 y1 z1 <> 0 ->
  let s := ts / maxDimensionR x0 y0 z0 x1 y1 z1 * sm in
  SuitModel.processedScene (modelConfig ts sm yo pv)
    (mkBox3 (fin3 x0 y0 z0) (fin3 x1 y1 z1)) isDesktop
  = Normal {| scale := setScalar (Fin s);
              position := fin3 (- ((x1 + x0) / 2) * s + pivotOf isDesktop pv)
                               (- ((y1 + y0) / 2) * s + yo)
                               (- ((z1 + z0) / 2) * s) |}.
Proof.
  intros HM s. unfold SuitModel.processedScene.
  fold (maxDimension (mkBox3 (fin3 x0 y0 z0) (fin3 x1 y1 z1))).
  rewrite maxDimension_finite.
  cbn [getCenter fin3 x y z min max add modelConfig targetSize
       scaleMultiplier yOffset desktopPivotOffsetX].
  fin_div. cbn [mul neg add].
  destruct isDesktop; reflexivity.
Qed.

(** Solves equations between nested minima and maxima of the same reals. *)
Ltac minmax_cases :=
  repeat match goal with
         | |- context [Rmin ?a ?b] =>
             is_var a; is_var b;
             destruct (Rle_dec a b);
             [rewrite (Rmin_left a b) by lra | rewrite (Rmin_right a b) by lra]
         | |- context [Rmax ?a ?b] =>
             is_var a; is_var b;
             destruct (Rle_dec a b);
             [rewrite (Rmax_right a b) by lra | rewrite (Rmax_left a b) by lra]
         end;
  lra.

Lemma localToWorld_finite (s tx ty tz a b c : R) :
  localToWorld {| scale := setScalar (Fin s); position := fin3 tx ty tz |}
    (fin3 a b c)
  = fin3 (s * a + tx) (s * b + ty) (s * c + tz).
Proof. reflexivity. Qed.

Lemma expandByPoint_empty (a b c : R) :
  expandByPoint emptyBox (fin3 a b c) = mkBox3 (fin3 a b c) (fin3 a b c).
Proof. reflexivity. Qed.

Lemma expandByPoint_finite (a0 b0 c0 a1 b1 c1 a b c : R) :
  expandByPoint (mkBox3 (fin3 a0 b0 c0) (fin3 a1 b1 c1)) (fin3 a b c)
  = mkBox3 (fin3 (Rmin a0 a) (Rmin b0 b) (Rmin c0 c))
           (fin3 (Rmax a1 a) (Rmax b1 b) (Rmax c1 c)).
Proof. reflexivity. Qed.

(** Decides maxima and minima of closed real expressions. *)
Ltac minmax_cases' := unfold Rmin, Rmax; repeat destruct Rle_dec; lra.

(** The box around the images of the eight corners: on each axis it spans
    the images of the two faces. *)
Lemma imageBox_finite (s tx ty tz x0 y0 z0 x1 y1 z1 : R) :
  imageBox {| scale := setScalar (Fin s); position := fin3 tx ty tz |}
    (mkBox3 (fin3 x0 y0 z0) (fin3 x1 y1 z1))
  = mkBox3
      (fin3 (Rmin (s * x0 + tx) (s * x1 + tx))
            (Rmin (s * y0 + ty) (s * y1 + ty))
            (Rmin (s * z0 + tz) (s * z1 + tz)))
      (fin3 (Rmax (s * x0 + tx) (s * x1 + tx))
            (Rmax (s * y0 + ty) (s * y1 + ty))
            (Rmax (s * z0 + tz) (s * z1 + tz))).
Proof.
  unfold imageBox, setFromPoints, corners.
  cbn [map fold_left min max].
  change (mkVector3 (x (fin3 ?a _ _)) (y (fin3 _ ?b _)) (z (fin3 _ _ ?c)))
    with (fin3 a b c).
  rewrite !localToWorld_finite, expandByPoint_empty, !expandByPoint_finite.
  generalize (s * x0 + tx) (s * x1 + tx) (s * y0 + ty) (s * y1 + ty)
             (s * z0 + tz) (s * z1 + tz).
  intros ax bx ay by_ az bz.
  unfold fin3. f_equal; f_equal; f_equal; minmax_cases.
Qed.

Lemma Rmax_plus_Rmin (a b : R) : Rmax a b + Rmin a b = a + b.
Proof. minmax_cases. Qed.

(** The extent of the image of an interval under [u => s * u + t]. *)
Lemma image_extent (s t u0 u1 : R) :
  u0 <= u1 ->
  Rmax (s * u0 + t) (s * u1 + t) + - Rmin (s * u0 + t) (s * u1 + t)
  = Rabs s * (u1 - u0).
Proof.
  intros Hu. unfold Rabs. destruct (Rcase_abs s) as [Hs | Hs].
  - rewrite Rmax_left, Rmin_right by nra. ring.
  - rewrite Rmax_right, Rmin_left by nra. ring.
Qed.

Lemma scaled_maxDimension (ts sm M : R) :
  0 < M -> Rabs (ts / M * sm) * M = Rabs (ts * sm).
Proof.
  intros HM.
  rewrite <- (Rabs_pos_eq M) at 2 by lra.
  rewrite <- Rabs_mult. f_equal. field. lra.
Qed.

(** C5. For a box of finite corners with a positive largest dimension
    [processedScene] writes
    [scale = targetSize / maxDimension * scaleMultiplier] and the translation
    [-center * scale] plus the pivot on x and the y offset on y; the box
    around the images of the eight corners is centred at
    [(pivotOffsetX, yOffset, 0)] and its largest dimension is
    [targetSize * scaleMultiplier], for every target size and multiplier
    whose product is not negative. (In general it is the absolute value of
    that product.) *)
Theorem normalized_box_is_centred_and_sized :
  forall (ts sm yo pv : R) (isDesktop : bool) (x0 y0 z0 x1 y1 z1 : R),
    x0 <= x1 -> y0 <= y1 -> z0 <= z1 ->
    0 < maxDimensionR x0 y0 z0 x1 y1 z1 ->
    exists o : Object3D,
      SuitModel.processedScene (modelConfig ts sm yo pv)
        (mkBox3 (fin3 x0 y0 z0) (fin3 x1 y1 z1)) isDesktop = Normal o
      /\ scale o
         = setScalar (Fin (ts / maxDimensionR x0 y0 z0 x1 y1 z1 * sm))
      /\ position o
         = fin3 (- ((x1 + x0) / 2) * (ts / maxDimensionR x0 y0 z0 x1 y1 z1 * sm)
                 + pivotOf isDesktop pv)
                (- ((y1 + y0) / 2) * (ts / maxDimensionR x0 y0 z0 x1 y1 z1 * sm)
                 + yo)
                (- ((z1 + z0) / 2) * (ts / maxDimensionR x0 y0 z0 x1 y1 z1 * sm))
      /\ getCenter (imageBox o (mkBox3 (fin3 x0 y0 z0) (fin3 x1 y1 z1)))
         = fin3 (pivotOf isDesktop pv) yo 0
      /\ maxDimension (imageBox o (mkBox3 (fin3 x0 y0 z0) (fin3 x1 y1 z1)))
         = Fin (Rabs (ts * sm))
      /\ (0 <= ts * sm ->
          maxDimension (imageBox o (mkBox3 (fin3 x0 y0 z0) (fin3 x1 y1 z1)))
          = Fin (ts * sm)).
Proof.
  intros ts sm yo pv isDesktop x0 y0 z0 x1 y1 z1 Hx Hy Hz HM.
  eexists. split; [apply processedScene_finite; lra |].
  split; [reflexivity |]. split; [reflexivity |].
  rewrite imageBox_finite.
  set (s := ts / maxDimensionR x0 y0 z0 x1 y1 z1 * sm).
  assert (Hsize :
    maxDimension
      (mkBox3
         (fin3 (Rmin (s * x0 + (- ((x1 + x0) / 2) * s + pivotOf isDesktop pv))
                  (s * x1 + (- ((x1 + x0) / 2) * s + pivotOf isDesktop pv)))
               (Rmin (s * y0 + (- ((y1 + y0) / 2) * s + yo))
                  (s * y1 + (- ((y1 + y0) / 2) * s + yo)))
               (Rmin (s * z0 + - ((z1 + z0) / 2) * s)
                  (s * z1 + - ((z1 + z0) / 2) * s)))
         (fin3 (Rmax (s * x0 + (- ((x1 + x0) / 2) * s + pivotOf isDesktop pv))
                  (s * x1 + (- ((x1 + x0) / 2) * s + pivotOf isDesktop pv)))
               (Rmax (s * y0 + (- ((y1 + y0) / 2) * s + yo))
                  (s * y1 + (- ((y1 + y0) / 2) * s + yo)))
               (Rmax (s * z0 + - ((z1 + z0) / 2) * s)
                  (s * z1 + - ((z1 + z0) / 2) * s))))
    = Fin (Rabs (ts * sm))).
  { rewrite maxDimension_finite. f_equal. unfold maxDimensionR at 1.
    unfold Rminus. rewrite !image_extent by assumption.
    rewrite !RmaxRmult by apply Rabs_pos.
    apply scaled_maxDimension. exact HM. }
  split; [| split].
  - unfold getCenter, fin3. cbn [x y z min max add]. fin_div.
    f_equal; f_equal; rewrite Rmax_plus_Rmin; field.
  - exact Hsize.
  - intros Hpos. rewrite Hsize, Rabs_pos_eq by exact Hpos. reflexivity.
Qed.

Lemma normalized_box_is_centred_and_sized_witness :
  exists o : Object3D,
    SuitModel.processedScene (modelConfig 3 1.0 0 0.5) unitBox true = Normal o
    /\ scale o = setScalar (Fin (3 / maxDimensionR 0 0 0 1 1 1 * 1.0))
    /\ position o
       = fin3 (- ((1 + 0) / 2) * (3 / maxDimensionR 0 0 0 1 1 1 * 1.0)
               + pivotOf true 0.5)
              (- ((1 + 0) / 2) * (3 / maxDimensionR 0 0 0 1 1 1 * 1.0) + 0)
              (- ((1 + 0) / 2) * (3 / maxDimensionR 0 0 0 1 1 1 * 1.0))
    /\ getCenter (imageBox o unitBox) = fin3 (pivotOf true 0.5) 0 0
    /\ maxDimension (imageBox o unitBox) = Fin (Rabs (3 * 1.0))
    /\ (0 <= 3 * 1.0 -> maxDimension (imageBox o unitBox) = Fin (3 * 1.0)).
Proof.
  apply (normalized_box_is_centred_and_sized 3 1.0 0 0.5 true 0 0 0 1 1 1);
    try lra.
  unfold maxDimensionR, Rmax. repeat destruct Rle_dec; lra.
Defined.

(* ================================================================== *)
(** * Smoothing: repeated frames with a constant target *)
(* ================================================================== *)

Lemma relaxed_step (alpha target start : R) (n : nat) :
  Spec.lerp (relaxed alpha target start n) target alpha
  = relaxed alpha target start (S n).
Proof. unfold Spec.lerp, relaxed. simpl. ring. Qed.

Lemma relaxed_below (alpha target start : R) (n : nat) :
  0 <= alpha <= 1 -> start <= target -> relaxed alpha target start n <= target.
Proof.
  intros Ha Hs. unfold relaxed.
  assert (0 <= (1 - alpha) ^ n) by (apply pow_le; lra).
  nra.
Qed.

Lemma relaxed_distance (alpha target start : R) (n : nat) :
  0 <= alpha <= 1 ->
  Rabs (relaxed alpha target start n - target)
  = (1 - alpha) ^ n * Rabs (start - target).
Proof.
  intros Ha. unfold relaxed.
  replace (target + (1 - alpha) ^ n * (start - target) - target)
    with ((1 - alpha) ^ n * (start - target)) by ring.
  rewrite Rabs_mult. f_equal. apply Rabs_pos_eq. apply pow_le. lra.
Qed.

Lemma relaxed3_distance (alpha : R) (target start : Spec.Position) (n : nat) :
  0 <= alpha <= 1 ->
  dist (relaxed3 alpha target start n) target
  = (1 - alpha) ^ n * dist start target.
Proof.
  intros Ha. destruct target as [[tx ty] tz], start as [[sx sy] sz].
  unfold relaxed3, dist, relaxed.
  assert (Hc : 0 <= (1 - alpha) ^ n) by (apply pow_le; lra).
  rewrite <- (sqrt_square ((1 - alpha) ^ n)) at 4 by exact Hc.
  rewrite <- sqrt_mult_alt by nra.
  f_equal. ring.
Qed.

(** A geometric sequence of ratio in [0,1) falls below every bound. *)
Lemma geometric_vanishes (q d eps : R) :
  0 <= q < 1 -> 0 <= d -> 0 < eps ->
  exists N : nat, forall n : nat, (N <= n)%nat -> q ^ n * d < eps.
Proof.
  intros Hq Hd Heps.
  assert (Hy : 0 < eps / (d + 1)) by (apply Rdiv_lt_0_compat; lra).
  destruct (pow_lt_1_zero q) with (y := eps / (d + 1)) as [N HN].
  - rewrite Rabs_pos_eq; lra.
  - exact Hy.
  - exists N. intros n Hn. specialize (HN n Hn).
    assert (Hp : 0 <= q ^ n) by (apply pow_le; lra).
    rewrite Rabs_pos_eq in HN by exact Hp.
    assert (E : eps / (d + 1) * (d + 1) = eps) by (field; lra).
    nra.
Qed.

Lemma rotationFrames_finite (target start : R) (n : nat) :
  rotationFrames (Fin target) n (Some (Fin start))
  = Some (Fin (relaxed 0.1 target start n)).
Proof.
  induction n as [| n IH].
  - simpl. do 2 f_equal. unfold relaxed. simpl. ring.
  - cbn [rotationFrames]. rewrite IH. cbn [SuitModel.useFrame].
    rewrite lerp_fin, relaxed_step. reflexivity.
Qed.

Lemma relaxed3_step (target start : Spec.Position) (n : nat) :
  Spec.lerp3 (relaxed3 0.05 target start n) target 0.05
  = relaxed3 0.05 target start (S n).
Proof.
  destruct target as [[tx ty] tz], start as [[sx sy] sz].
  unfold relaxed3, Spec.lerp3. rewrite !relaxed_step. reflexivity.
Qed.

Lemma relaxed3_start (alpha : R) (target start : Spec.Position) :
  relaxed3 alpha target start 0 = start.
Proof.
  destruct target as [[tx ty] tz], start as [[sx sy] sz].
  unfold relaxed3, relaxed. simpl. repeat f_equal; ring.
Qed.

(** With finite inputs the target is the same on every frame, and [n]
    frames leave the camera where [n] smoothing steps of factor 0.05 lead. *)
Lemma cameraFrames_finite
  (c : CameraConfig) (fovDegrees baseDistance pixelOffsetX w h : R)
  (start : Spec.Position) (targetRef : Vector3) (a : Spec.AnimationState)
  (n : nat) :
  0 < w -> 0 < h -> Spec.zoom a <> 0 ->
  exists targetRef' : Vector3,
    cameraFrames (cameraConfig fovDegrees baseDistance c) (Fin pixelOffsetX)
      (mkSize (Fin w) (Fin h)) n (cameraState start targetRef a)
    = Normal
        (cameraState
           (relaxed3 0.05
              (Spec.targetPosition a w h fovDegrees baseDistance pixelOffsetX)
              start n)
           targetRef' a).
Proof.
  intros Hw Hh Hz. induction n as [| n [targetRef' IH]].
  - exists targetRef. cbn [cameraFrames]. rewrite relaxed3_start. reflexivity.
  - exists (ofPosition
              (Spec.targetPosition a w h fovDegrees baseDistance pixelOffsetX)).
    cbn [cameraFrames]. rewrite IH.
    unfold CameraController.useFrame.
    rewrite frameTarget_finite by assumption.
    rewrite <- relaxed3_step.
    destruct (relaxed3 0.05
                (Spec.targetPosition a w h fovDegrees baseDistance pixelOffsetX)
                start n) as [[qx qy] qz].
    destruct (Spec.targetPosition a w h fovDegrees baseDistance pixelOffsetX)
      as [[tx ty] tz].
    reflexivity.
Qed.

Lemma relaxed3_below (target start : Spec.Position) (n : nat) :
  below start target -> below (relaxed3 0.05 target start n) target.
Proof.
  destruct target as [[tx ty] tz], start as [[sx sy] sz].
  unfold below, relaxed3. intros (Hx & Hy & Hz).
  repeat split; apply relaxed_below; lra.
Qed.

Lemma dist_nonneg (p q : Spec.Position) : 0 <= dist p q.
Proof.
  destruct p as [[px py] pz], q as [[qx qy] qz]. unfold dist. apply sqrt_pos.
Qed.

(** C7. Repeated frames with a constant target converge and do not
    overshoot. For the camera (factor 0.05) the Euclidean distance of the
    position to the target falls below every positive bound from some frame
    on, and a position that starts below the target on every axis stays
    below it; for the suit's rotation (factor 0.1) the same holds for the
    angle. *)
Theorem smoothing_converges_without_overshoot :
  forall (c : CameraConfig) (fovDegrees baseDistance pixelOffsetX w h : R)
         (start : Spec.Position) (targetRef : Vector3)
         (a : Spec.AnimationState) (rotation currentRotation : R),
    0 < w -> 0 < h -> Spec.zoom a <> 0 ->
    (forall eps : R, 0 < eps ->
       exists N : nat, forall n : nat, (N <= n)%nat ->
         exists (q : Spec.Position) (targetRef' : Vector3),
           cameraFrames (cameraConfig fovDegrees baseDistance c)
             (Fin pixelOffsetX) (mkSize (Fin w) (Fin h)) n
             (cameraState start targetRef a)
           = Normal (cameraState q targetRef' a)
           /\ dist q (Spec.targetPosition a w h fovDegrees baseDistance
                        pixelOffsetX) < eps)
    /\ (below start
          (Spec.targetPosition a w h fovDegrees baseDistance pixelOffsetX) ->
        forall n : nat,
          exists (q : Spec.Position) (targetRef' : Vector3),
            cameraFrames (cameraConfig fovDegrees baseDistance c)
              (Fin pixelOffsetX) (mkSize (Fin w) (Fin h)) n
              (cameraState start targetRef a)
            = Normal (cameraState q targetRef' a)
            /\ below q (Spec.targetPosition a w h fovDegrees baseDistance
                          pixelOffsetX))
    /\ (forall eps : R, 0 < eps ->
          exists N : nat, forall n : nat, (N <= n)%nat ->
            exists r : R,
              rotationFrames (Fin currentRotation) n (Some (Fin rotation))
              = Some (Fin r)
              /\ Rabs (r - currentRotation) < eps)
    /\ (rotation <= currentRotation ->
        forall n : nat,
          exists r : R,
            rotationFrames (Fin currentRotation) n (Some (Fin rotation))
            = Some (Fin r)
            /\ r <= currentRotation).
Proof.
  intros c fovDegrees baseDistance pixelOffsetX w h start targetRef a
    rotation currentRotation Hw Hh Hz.
  set (T := Spec.targetPosition a w h fovDegrees baseDistance pixelOffsetX).
  repeat split.
  - intros eps Heps.
    destruct (geometric_vanishes 0.95 (dist start T) eps) as [N HN];
      [lra | apply dist_nonneg | exact Heps |].
    exists N. intros n Hn.
    destruct (cameraFrames_finite c fovDegrees baseDistance pixelOffsetX w h
                start targetRef a n Hw Hh Hz) as [targetRef' E].
    exists (relaxed3 0.05 T start n), targetRef'. split; [exact E |].
    rewrite relaxed3_distance by lra.
    replace (1 - 0.05) with 0.95 by lra. apply HN, Hn.
  - intros Hb n.
    destruct (cameraFrames_finite c fovDegrees baseDistance pixelOffsetX w h
                start targetRef a n Hw Hh Hz) as [targetRef' E].
    exists (relaxed3 0.05 T start n), targetRef'. split; [exact E |].
    apply relaxed3_below, Hb.
  - intros eps Heps.
    destruct (geometric_vanishes 0.9 (Rabs (rotation - currentRotation)) eps)
      as [N HN]; [lra | apply Rabs_pos | exact Heps |].
    exists N. intros n Hn.
    exists (relaxed 0.1 currentRotation rotation n).
    split; [apply rotationFrames_finite |].
    rewrite relaxed_distance by lra.
    replace (1 - 0.1) with 0.9 by lra. apply HN, Hn.
  - intros Hr n.
    exists (relaxed 0.1 currentRotation rotation n).
    split; [apply rotationFrames_finite |].
    apply relaxed_below; lra.
Qed.

Lemma smoothing_converges_without_overshoot_witness :
  (forall eps : R, 0 < eps ->
     exists N : nat, forall n : nat, (N <= n)%nat ->
       exists (q : Spec.Position) (targetRef' : Vector3),
         cameraFrames (cameraConfig 45 5 CAMERA_CONFIG)
           (Fin (-400)) (mkSize (Fin 1920) (Fin 1080)) n
           (cameraState defaultCamera (fin3 2 1.6 5) heroState)
         = Normal (cameraState q targetRef' heroState)
         /\ dist q (Spec.targetPosition heroState 1920 1080 45 5 (-400)) < eps)
  /\ (below defaultCamera
        (Spec.targetPosition heroState 1920 1080 45 5 (-400)) ->
      forall n : nat,
        exists (q : Spec.Position) (targetRef' : Vector3),
          cameraFrames (cameraConfig 45 5 CAMERA_CONFIG)
            (Fin (-400)) (mkSize (Fin 1920) (Fin 1080)) n
            (cameraState defaultCamera (fin3 2 1.6 5) heroState)
          = Normal (cameraState q targetRef' heroState)
          /\ below q (Spec.targetPosition heroState 1920 1080 45 5 (-400)))
  /\ (forall eps : R, 0 < eps ->
        exists N : nat, forall n : nat, (N <= n)%nat ->
          exists r : R,
            rotationFrames (Fin 0.35) n (Some (Fin 0)) = Some (Fin r)
            /\ Rabs (r - 0.35) < eps)
  /\ (0 <= 0.35 ->
      forall n : nat,
        exists r : R,
          rotationFrames (Fin 0.35) n (Some (Fin 0)) = Some (Fin r)
          /\ r <= 0.35).
Proof.
  apply (smoothing_converges_without_overshoot CAMERA_CONFIG 45 5 (-400)
           1920 1080 defaultCamera (fin3 2 1.6 5) heroState 0 0.35);
    [lra | lra | simpl; lra].
Defined.

(* ================================================================== *)
(** * The keyframe table and its interpolation *)
(* ================================================================== *)

(** The arrays the shipped keyframes produce. *)
Lemma getInterpolationArrays_value :
  Keyframes.getInterpolationArrays
  = {| Keyframes.scrollBreakpoints := [0.0; 0.2; 0.45; 0.7; 0.85; 1.0];
       Keyframes.rotationValues := [0.35; 1.2; PI * 0.75; 2.0; 2.2; 2.2];
       Keyframes.zoomValues := [3.0; 1.08; 0.95; 1.02; 0.98; 0.98];
       Keyframes.cameraYValues := [1.6; 1.65; 1.7; 1.75; 1.8; 1.8];
       Keyframes.cameraXValues := [1.5; 1.5; 1.3; 1.2; 1.0; 1.0];
       Keyframes.opacityValues := [1.0; 1.0; 1.0; 1.0; 0.0; 0.0] |}.
Proof. reflexivity. Qed.

(** Walks the breakpoint search at a concrete progress: every comparison is
    decided by linear arithmetic. *)
Ltac walk_table :=
  unfold Keyframes.useSuitScrollAnimation, Keyframes.useTransform;
  rewrite getInterpolationArrays_value;
  cbn [Keyframes.scrollBreakpoints Keyframes.valuesOf Keyframes.rotationValues
       Keyframes.zoomValues Keyframes.cameraYValues Keyframes.cameraXValues
       Keyframes.opacityValues combine Keyframes.interpolate
       Keyframes.interpolateFrom];
  repeat match goal with
         | |- context [Rle_dec ?a ?b] => destruct (Rle_dec a b); try lra
         | |- context [Req_dec_T ?a ?b] => destruct (Req_dec_T a b); try lra
         end.

Lemma opacity_at_090 :
  Keyframes.useSuitScrollAnimation Keyframes.Opacity 0.9 = Some 0.
Proof. walk_table. f_equal. lra. Qed.

Lemma opacity_at_085 :
  Keyframes.useSuitScrollAnimation Keyframes.Opacity 0.85 = Some 0.
Proof. walk_table. f_equal. lra. Qed.

(** C2, as the code has it. The shipped table samples opacity 1 at progress
    0, 0.2, 0.45, 0.7 and opacity 0 at 0.85 and 1.0; the interpolated opacity
    is exactly 0 at progress 0.9 and exactly 0 at progress 0.85, the
    breakpoint whose own value is 0. *)
Theorem opacity_at_scenario_points :
  Keyframes.scrollBreakpoints Keyframes.getInterpolationArrays
    = [0.0; 0.2; 0.45; 0.7; 0.85; 1.0]
  /\ Keyframes.opacityValues Keyframes.getInterpolationArrays
     = [1.0; 1.0; 1.0; 1.0; 0.0; 0.0]
  /\ Keyframes.useSuitScrollAnimation Keyframes.Opacity 0.9 = Some 0
  /\ Keyframes.useSuitScrollAnimation Keyframes.Opacity 0.85 = Some 0.
Proof.
  split; [reflexivity |]. split; [reflexivity |].
  split; [exact opacity_at_090 | exact opacity_at_085].
Qed.

(** C2 fails as stated: at progress 0.85 the opacity is not 1. *)
Lemma opacity_at_085_is_not_one :
  Keyframes.useSuitScrollAnimation Keyframes.Opacity 0.85 <> Some 1.0.
Proof.
  rewrite opacity_at_085. intros E. injection E as E. lra.
Qed.

Lemma rotation_at_0325 :
  Keyframes.useSuitScrollAnimation Keyframes.RotationY 0.325
  = Some (1.2 + (PI * 0.75 - 1.2) * (0.325 - 0.2) / (0.45 - 0.2)).
Proof. walk_table. reflexivity. Qed.

(** Four digits of pi: enough to round [Math.PI * 0.75] to three decimals. *)
Lemma PI_four_digits : 3.1415 < PI < 3.1416.
Proof.
  pose proof (PI_2_3_7_ineq 2) as [Hlo Hhi].
  unfold sum_f_R0, tg_alt, PI_2_3_7_tg, Ratan_seq in Hlo, Hhi.
  simpl in Hlo, Hhi.
  lra.
Qed.

(** C8. With the shipped rotation table, whose third value
    [Math.PI * 0.75] is 2.356 to three decimals, the interpolated rotation at
    progress 0.325, the midpoint of the section from 0.2 to 0.45, is the
    table's [1.2 + (v - 1.2) * (0.325 - 0.2) / (0.45 - 0.2)] for that third
    value [v], which is 1.778 to three decimals: it lies strictly between
    1.778 and 1.7783, less than 0.0005 from both 1.778 and the same formula
    at 2.356. *)
Theorem rotation_at_craft_midpoint :
  Keyframes.scrollBreakpoints Keyframes.getInterpolationArrays
    = [0.0; 0.2; 0.45; 0.7; 0.85; 1.0]
  /\ Keyframes.rotationValues Keyframes.getInterpolationArrays
     = [0.35; 1.2; PI * 0.75; 2.0; 2.2; 2.2]
  /\ Rabs (PI * 0.75 - 2.356) < 0.0005
  /\ Keyframes.useSuitScrollAnimation Keyframes.RotationY 0.325
     = Some (1.2 + (PI * 0.75 - 1.2) * (0.325 - 0.2) / (0.45 - 0.2))
  /\ 1.778 < 1.2 + (PI * 0.75 - 1.2) * (0.325 - 0.2) / (0.45 - 0.2) < 1.7783
  /\ Rabs (1.2 + (PI * 0.75 - 1.2) * (0.325 - 0.2) / (0.45 - 0.2) - 1.778)
     < 0.0005
  /\ Rabs (1.2 + (PI * 0.75 - 1.2) * (0.325 - 0.2) / (0.45 - 0.2)
           - (1.2 + (2.356 - 1.2) * (0.325 - 0.2) / (0.45 - 0.2)))
     < 0.0005
  /\ 1.2 + (2.356 - 1.2) * (0.325 - 0.2) / (0.45 - 0.2) = 1.778.
Proof.
  pose proof PI_four_digits as HPI.
  split; [reflexivity |]. split; [reflexivity |].
  split; [apply Rabs_def1; lra |].
  split; [exact rotation_at_0325 |].
  split; [lra |].
  split; [apply Rabs_def1; lra |].
  split; [apply Rabs_def1; lra | lra].
Qed.

(** ** Clamping and totality *)

Lemma interpolation_is_total (c : Keyframes.Channel) (progress : R) :
  exists v : R, Keyframes.useSuitScrollAnimation c progress = Some v.
Proof.
  unfold Keyframes.useSuitScrollAnimation, Keyframes.useTransform.
  rewrite getInterpolationArrays_value.
  destruct c; cbn [Keyframes.scrollBreakpoints Keyframes.valuesOf
                   Keyframes.rotationValues Keyframes.zoomValues
                   Keyframes.cameraYValues Keyframes.cameraXValues
                   Keyframes.opacityValues combine Keyframes.interpolate];
    eexists; reflexivity.
Qed.

Lemma clamped_below (c : Keyframes.Channel) (progress : R) :
  progress <= 0 ->
  Keyframes.useSuitScrollAnimation c progress
  = Some (authored c Keyframes.hero).
Proof. intros Hp. destruct c; walk_table; reflexivity. Qed.

Lemma clamped_above (c : Keyframes.Channel) (progress : R) :
  1 <= progress ->
  Keyframes.useSuitScrollAnimation c progress
  = Some (authored c Keyframes.contact).
Proof.
  intros Hp.
  destruct c; walk_table; f_equal; cbn [authored Keyframes.contact
    Keyframes.rotationY Keyframes.zoom Keyframes.cameraY Keyframes.cameraX
    Keyframes.opacity]; lra.
Qed.

(** C6. On every channel of the shipped table the interpolation clamps to
    the endpoint values: the table starts at progress 0 with the hero
    section's value and ends at progress 1 with the contact section's value;
    every progress at or below 0 gives the first value and every progress at
    or above 1 the last one, so progress -1 gives the value at 0 and
    progress 2 the value at 1; and every real progress has a value. *)
Theorem interpolation_clamps :
  forall (c : Keyframes.Channel) (under over : R),
    under <= 0 -> 1 <= over ->
    hd_error (combine
                (Keyframes.scrollBreakpoints Keyframes.getInterpolationArrays)
                (Keyframes.valuesOf c Keyframes.getInterpolationArrays))
      = Some (0, authored c Keyframes.hero)
    /\ last (combine
               (Keyframes.scrollBreakpoints Keyframes.getInterpolationArrays)
               (Keyframes.valuesOf c Keyframes.getInterpolationArrays))
             (0, 0)
       = (1, authored c Keyframes.contact)
    /\ Keyframes.useSuitScrollAnimation c under
       = Some (authored c Keyframes.hero)
    /\ Keyframes.useSuitScrollAnimation c 0
       = Some (authored c Keyframes.hero)
    /\ Keyframes.useSuitScrollAnimation c (-1)
       = Some (authored c Keyframes.hero)
    /\ Keyframes.useSuitScrollAnimation c over
       = Some (authored c Keyframes.contact)
    /\ Keyframes.useSuitScrollAnimation c 1
       = Some (authored c Keyframes.contact)
    /\ Keyframes.useSuitScrollAnimation c 2
       = Some (authored c Keyframes.contact)
    /\ Keyframes.useSuitScrollAnimation c under
       = Keyframes.useSuitScrollAnimation c 0
    /\ Keyframes.useSuitScrollAnimation c over
       = Keyframes.useSuitScrollAnimation c 1
    /\ Keyframes.useSuitScrollAnimation c (-1)
       = Keyframes.useSuitScrollAnimation c 0
    /\ Keyframes.useSuitScrollAnimation c 2
       = Keyframes.useSuitScrollAnimation c 1
    /\ forall progress : R,
         exists v : R, Keyframes.useSuitScrollAnimation c progress = Some v.
Proof.
  intros c under over Hu Ho.
  split.
  { rewrite getInterpolationArrays_value. destruct c; cbn; do 2 f_equal; lra. }
  split.
  { rewrite getInterpolationArrays_value. destruct c; cbn; f_equal; lra. }
  rewrite (clamped_below c under Hu), (clamped_below c 0) by lra.
  rewrite (clamped_below c (-1)) by lra.
  rewrite (clamped_above c over Ho), (clamped_above c 1) by lra.
  rewrite (clamped_above c 2) by lra.
  repeat split; try reflexivity.
  apply interpolation_is_total.
Qed.

Lemma interpolation_clamps_witness :
  hd_error (combine
              (Keyframes.scrollBreakpoints Keyframes.getInterpolationArrays)
              (Keyframes.valuesOf Keyframes.Zoom
                 Keyframes.getInterpolationArrays))
    = Some (0, authored Keyframes.Zoom Keyframes.hero)
  /\ last (combine
             (Keyframes.scrollBreakpoints Keyframes.getInterpolationArrays)
             (Keyframes.valuesOf Keyframes.Zoom
                Keyframes.getInterpolationArrays))
           (0, 0)
     = (1, authored Keyframes.Zoom Keyframes.contact)
  /\ Keyframes.useSuitScrollAnimation Keyframes.Zoom (-1)
     = Some (authored Keyframes.Zoom Keyframes.hero)
  /\ Keyframes.useSuitScrollAnimation Keyframes.Zoom 0
     = Some (authored Keyframes.Zoom Keyframes.hero)
  /\ Keyframes.useSuitScrollAnimation Keyframes.Zoom (-1)
     = Some (authored Keyframes.Zoom Keyframes.hero)
  /\ Keyframes.useSuitScrollAnimation Keyframes.Zoom 2
     = Some (authored Keyframes.Zoom Keyframes.contact)
  /\ Keyframes.useSuitScrollAnimation Keyframes.Zoom 1
     = Some (authored Keyframes.Zoom Keyframes.contact)
  /\ Keyframes.useSuitScrollAnimation Keyframes.Zoom 2
     = Some (authored Keyframes.Zoom Keyframes.contact)
  /\ Keyframes.useSuitScrollAnimation Keyframes.Zoom (-1)
     = Keyframes.useSuitScrollAnimation Keyframes.Zoom 0
  /\ Keyframes.useSuitScrollAnimation Keyframes.Zoom 2
     = Keyframes.useSuitScrollAnimation Keyframes.Zoom 1
  /\ Keyframes.useSuitScrollAnimation Keyframes.Zoom (-1)
     = Keyframes.useSuitScrollAnimation Keyframes.Zoom 0
  /\ Keyframes.useSuitScrollAnimation Keyframes.Zoom 2
     = Keyframes.useSuitScrollAnimation Keyframes.Zoom 1
  /\ forall progress : R,
       exists v : R,
         Keyframes.useSuitScrollAnimation Keyframes.Zoom progress = Some v.
Proof.
  apply (interpolation_clamps Keyframes.Zoom (-1) 2); lra.
Defined.

(** ** The interpolated value stays within the authored values *)

Lemma interpolateFrom_bounds (lo hi : R) :
  forall (rest : list (R * R)) (p0 v0 progress : R),
    p0 < progress -> lo <= v0 <= hi ->
    Forall (fun pv => lo <= snd pv <= hi) rest ->
    lo <= Keyframes.interpolateFrom p0 v0 rest progress <= hi.
Proof.
  induction rest as [| [p1 v1] rest IH]; intros p0 v0 progress Hp Hv Hrest.
  - exact Hv.
  - inversion Hrest as [| ? ? Hv1 Hrest']; subst. cbn [snd] in Hv1.
    cbn [Keyframes.interpolateFrom].
    destruct (Rle_dec progress p1) as [Hle | Hgt].
    + destruct (Req_dec_T p1 p0) as [E | NE]; [exact Hv |].
      set (t := (progress - p0) / (p1 - p0)).
      assert (Ht : 0 <= t <= 1).
      { unfold t. split.
        - apply Rmult_le_pos; [lra |]. left. apply Rinv_0_lt_compat. lra.
        - apply Rmult_le_reg_r with (p1 - p0); [lra |].
          unfold Rdiv. rewrite Rmult_assoc, Rinv_l by lra. lra. }
      replace (v0 + (v1 - v0) * (progress - p0) / (p1 - p0))
        with (v0 + (v1 - v0) * t) by (unfold t; field; lra).
      nra.
    + apply IH; [lra | exact Hv1 | exact Hrest'].
Qed.

Lemma interpolate_bounds (lo hi : R) (table : list (R * R)) (progress v : R) :
  Forall (fun pv => lo <= snd pv <= hi) table ->
  Keyframes.interpolate table progress = Some v ->
  lo <= v <= hi.
Proof.
  intros Htable. destruct table as [| [p0 v0] rest]; [discriminate |].
  inversion Htable as [| ? ? Hv0 Hrest]; subst. cbn [snd] in Hv0.
  cbn [Keyframes.interpolate]. intros E. injection E as <-.
  destruct (Rle_dec progress p0); [exact Hv0 |].
  apply interpolateFrom_bounds; [lra | exact Hv0 | exact Hrest].
Qed.

Lemma fold_Rmin_le (rest : list R) :
  forall a : R,
    fold_left Rmin rest a <= a
    /\ forall v : R, In v rest -> fold_left Rmin rest a <= v.
Proof.
  induction rest as [| b rest IH]; intros a.
  - split; [simpl; lra | intros v []].
  - cbn [fold_left]. destruct (IH (Rmin a b)) as [H1 H2].
    pose proof (Rmin_l a b). pose proof (Rmin_r a b).
    split; [lra |]. intros v [<- | Hin]; [lra | apply H2, Hin].
Qed.

Lemma fold_Rmax_ge (rest : list R) :
  forall a : R,
    a <= fold_left Rmax rest a
    /\ forall v : R, In v rest -> v <= fold_left Rmax rest a.
Proof.
  induction rest as [| b rest IH]; intros a.
  - split; [simpl; lra | intros v []].
  - cbn [fold_left]. destruct (IH (Rmax a b)) as [H1 H2].
    pose proof (Rmax_l a b). pose proof (Rmax_r a b).
    split; [lra |]. intros v [<- | Hin]; [lra | apply H2, Hin].
Qed.

Lemma minimum_maximum_bound (l : list R) (v : R) :
  In v l -> minimum l <= v <= maximum l.
Proof.
  destruct l as [| a rest]; [intros [] |].
  intros [<- | Hin]; unfold minimum, maximum.
  - split; [exact (proj1 (fold_Rmin_le rest a)) | exact (proj1 (fold_Rmax_ge rest a))].
  - split; [exact (proj2 (fold_Rmin_le rest a) v Hin)
           | exact (proj2 (fold_Rmax_ge rest a) v Hin)].
Qed.

(** Every sample of a channel's table is a value some section authors. *)
Lemma table_values_authored (c : Keyframes.Channel) :
  Forall (fun pv =>
            minimum (map (authored c) Keyframes.sections) <= snd pv
            <= maximum (map (authored c) Keyframes.sections))
    (combine (Keyframes.scrollBreakpoints Keyframes.getInterpolationArrays)
       (Keyframes.valuesOf c Keyframes.getInterpolationArrays)).
Proof.
  rewrite getInterpolationArrays_value.
  destruct c;
    cbn [Keyframes.scrollBreakpoints Keyframes.valuesOf
         Keyframes.rotationValues Keyframes.zoomValues Keyframes.cameraYValues
         Keyframes.cameraXValues Keyframes.opacityValues combine];
    repeat (apply Forall_cons; [apply minimum_maximum_bound; simpl; auto 10 |]);
    apply Forall_nil.
Qed.

Lemma opacity_extremes :
  minimum (map (authored Keyframes.Opacity) Keyframes.sections) = 0
  /\ maximum (map (authored Keyframes.Opacity) Keyframes.sections) = 1.
Proof.
  unfold minimum, maximum. simpl. split; minmax_cases'.
Qed.

(** C9. For every real progress, the interpolated value of each channel
    lies between the least and the greatest value the keyframes author for
    that channel; the opacity lies in [0,1]. *)
Theorem interpolation_within_authored_range :
  forall (c : Keyframes.Channel) (progress : R),
    (exists v : R,
       Keyframes.useSuitScrollAnimation c progress = Some v
       /\ minimum (map (authored c) Keyframes.sections) <= v
          <= maximum (map (authored c) Keyframes.sections))
    /\ (exists o : R,
          Keyframes.useSuitScrollAnimation Keyframes.Opacity progress = Some o
          /\ 0 <= o <= 1).
Proof.
  assert (H : forall (c : Keyframes.Channel) (progress : R),
            exists v : R,
              Keyframes.useSuitScrollAnimation c progress = Some v
              /\ minimum (map (authored c) Keyframes.sections) <= v
                 <= maximum (map (authored c) Keyframes.sections)).
  { intros c progress.
    destruct (interpolation_is_total c progress) as [v Hv].
    exists v. split; [exact Hv |].
    apply (interpolate_bounds _ _ _ progress v (table_values_authored c)).
    exact Hv. }
  intros c progress. split; [apply H |].
  destruct (H Keyframes.Opacity progress) as [o [Ho Hb]].
  destruct opacity_extremes as [Emin Emax]. rewrite Emin, Emax in Hb.
  exists o. split; assumption.
Qed.

(** The zoom the camera controller divides by is never zero on the shipped
    keyframes: it stays between 0.95 and 3. *)
Lemma interpolated_zoom_is_positive (progress v : R) :
  Keyframes.useSuitScrollAnimation Keyframes.Zoom progress = Some v ->
  0.95 <= v <= 3.
Proof.
  intros Hv.
  pose proof (interpolate_bounds _ _ _ progress v
                (table_values_authored Keyframes.Zoom) Hv) as Hb.
  assert (Emin : minimum (map (authored Keyframes.Zoom) Keyframes.sections) = 0.95)
    by (unfold minimum; simpl; minmax_cases').
  assert (Emax : maximum (map (authored Keyframes.Zoom) Keyframes.sections) = 3)
    by (unfold maximum; simpl; minmax_cases').
  rewrite Emin, Emax in Hb. exact Hb.
Qed.

(* ================================================================== *)
(** * The arrays of any list of sections *)
(* ================================================================== *)

Lemma last_cons_default {A : Type} (l : list A) (a d d' : A) :
  last (a :: l) d = last (a :: l) d'.
Proof.
  revert a. induction l as [| b l IH]; intros a; [reflexivity |].
  change (last (b :: l) d = last (b :: l) d'). apply IH.
Qed.

(** The arrays after [acc]: one sample per section at its start, then the
    last section once more at its end. *)
Lemma forEach_samples (len : nat) :
  forall (rest : list Keyframes.Section_) (s : Keyframes.Section_)
         (index : nat) (acc : Keyframes.Arrays),
    (index + S (length rest) = len)%nat ->
    Keyframes.forEach len (s :: rest) index acc
    = {| Keyframes.scrollBreakpoints :=
           Keyframes.scrollBreakpoints acc
           ++ map Keyframes.scrollStart (s :: rest)
           ++ [Keyframes.scrollEnd (last (s :: rest) s)];
         Keyframes.rotationValues :=
           Keyframes.rotationValues acc
           ++ map Keyframes.rotationY (s :: rest)
           ++ [Keyframes.rotationY (last (s :: rest) s)];
         Keyframes.zoomValues :=
           Keyframes.zoomValues acc
           ++ map Keyframes.zoom (s :: rest)
           ++ [Keyframes.zoom (last (s :: rest) s)];
         Keyframes.cameraYValues :=
           Keyframes.cameraYValues acc
           ++ map Keyframes.cameraY (s :: rest)
           ++ [Keyframes.cameraY (last (s :: rest) s)];
         Keyframes.cameraXValues :=
           Keyframes.cameraXValues acc
           ++ map Keyframes.cameraX (s :: rest)
           ++ [Keyframes.cameraX (last (s :: rest) s)];
         Keyframes.opacityValues :=
           Keyframes.opacityValues acc
           ++ map Keyframes.opacity (s :: rest)
           ++ [Keyframes.opacity (last (s :: rest) s)] |}.
Proof.
  induction rest as [| r rest IH]; intros s index acc Hlen.
  - cbn [Keyframes.forEach]. unfold Keyframes.visit.
    replace (Nat.eqb index (len - 1)) with true
      by (symmetry; apply Nat.eqb_eq; cbn [length] in Hlen; lia).
    unfold Keyframes.pushSample, Keyframes.push.
    cbn [Keyframes.scrollBreakpoints Keyframes.rotationValues
         Keyframes.zoomValues Keyframes.cameraYValues Keyframes.cameraXValues
         Keyframes.opacityValues map last].
    f_equal; rewrite <- app_assoc; reflexivity.
  - change (Keyframes.forEach len (s :: r :: rest) index acc)
      with (Keyframes.forEach len (r :: rest) (S index)
              (Keyframes.visit len acc index s)).
    unfold Keyframes.visit.
    replace (Nat.eqb index (len - 1)) with false
      by (symmetry; apply Nat.eqb_neq; cbn [length] in Hlen; lia).
    rewrite IH by (cbn [length] in Hlen |- *; lia).
    unfold Keyframes.pushSample, Keyframes.push.
    cbn [Keyframes.scrollBreakpoints Keyframes.rotationValues
         Keyframes.zoomValues Keyframes.cameraYValues Keyframes.cameraXValues
         Keyframes.opacityValues].
    change (last (s :: r :: rest) s) with (last (r :: rest) s).
    rewrite (last_cons_default rest r s r).
    f_equal; rewrite <- app_assoc; reflexivity.
Qed.

(** The arrays of a list of sections that ends with [l]. *)
Lemma arraysOf_snoc (init : list Keyframes.Section_) (l : Keyframes.Section_) :
  Keyframes.arraysOf (init ++ [l])
  = {| Keyframes.scrollBreakpoints :=
         map Keyframes.scrollStart init
         ++ [Keyframes.scrollStart l; Keyframes.scrollEnd l];
       Keyframes.rotationValues :=
         map Keyframes.rotationY init
         ++ [Keyframes.rotationY l; Keyframes.rotationY l];
       Keyframes.zoomValues :=
         map Keyframes.zoom init ++ [Keyframes.zoom l; Keyframes.zoom l];
       Keyframes.cameraYValues :=
         map Keyframes.cameraY init
         ++ [Keyframes.cameraY l; Keyframes.cameraY l];
       Keyframes.cameraXValues :=
         map Keyframes.cameraX init
         ++ [Keyframes.cameraX l; Keyframes.cameraX l];
       Keyframes.opacityValues :=
         map Keyframes.opacity init
         ++ [Keyframes.opacity l; Keyframes.opacity l] |}.
Proof.
  unfold Keyframes.arraysOf.
  assert (E : forall (A : Type) (f : Keyframes.Section_ -> A) (e : A),
            map f (init ++ [l]) ++ [e] = map f init ++ [f l; e])
    by (intros; rewrite map_app, <- app_assoc; reflexivity).
  destruct init as [| a init].
  - cbn [app]. rewrite forEach_samples by reflexivity. reflexivity.
  - change ((a :: init) ++ [l]) with (a :: (init ++ [l])).
    rewrite forEach_samples by reflexivity.
    change (a :: (init ++ [l])) with ((a :: init) ++ [l]).
    rewrite last_last, !E. reflexivity.
Qed.

(** X1. For every non-empty list of sections, each array holds one sample
    per section, in order, taken at the section's start, followed by one
    more sample of the last section at its end; for no sections every array
    is empty. *)
Theorem arrays_sample_starts_then_last_end :
  (forall (s : Keyframes.Section_) (rest : list Keyframes.Section_),
     let sections := s :: rest in
     let final := last sections s in
     Keyframes.arraysOf sections
     = {| Keyframes.scrollBreakpoints :=
            map Keyframes.scrollStart sections ++ [Keyframes.scrollEnd final];
          Keyframes.rotationValues :=
            map Keyframes.rotationY sections ++ [Keyframes.rotationY final];
          Keyframes.zoomValues :=
            map Keyframes.zoom sections ++ [Keyframes.zoom final];
          Keyframes.cameraYValues :=
            map Keyframes.cameraY sections ++ [Keyframes.cameraY final];
          Keyframes.cameraXValues :=
            map Keyframes.cameraX sections ++ [Keyframes.cameraX final];
          Keyframes.opacityValues :=
            map Keyframes.opacity sections ++ [Keyframes.opacity final] |})
  /\ Keyframes.arraysOf [] = Keyframes.mkArrays [] [] [] [] [] [].
Proof.
  split; [| reflexivity].
  intros s rest sections final. unfold Keyframes.arraysOf, sections.
  rewrite forEach_samples by reflexivity. reflexivity.
Qed.

Lemma valuesOf_snoc (c : Keyframes.Channel) (init : list Keyframes.Section_)
  (l : Keyframes.Section_) :
  Keyframes.valuesOf c (Keyframes.arraysOf (init ++ [l]))
  = map (authored c) init ++ [authored c l; authored c l].
Proof. rewrite arraysOf_snoc. destruct c; reflexivity. Qed.

(** X2. The breakpoint array and the value array of every channel have the
    same length: one more than the number of sections, and zero when there
    are no sections. *)
Theorem arrays_have_matching_lengths :
  forall (sections : list Keyframes.Section_) (c : Keyframes.Channel),
    length (Keyframes.valuesOf c (Keyframes.arraysOf sections))
    = length (Keyframes.scrollBreakpoints (Keyframes.arraysOf sections))
    /\ length (Keyframes.scrollBreakpoints (Keyframes.arraysOf sections))
       = match sections with
         | [] => 0%nat
         | _ :: _ => S (length sections)
         end.
Proof.
  intros sections c. destruct sections as [| s rest].
  - destruct c; split; reflexivity.
  - unfold Keyframes.arraysOf. rewrite forEach_samples by reflexivity.
    destruct c;
      cbn [Keyframes.valuesOf Keyframes.scrollBreakpoints
           Keyframes.rotationValues Keyframes.zoomValues
           Keyframes.cameraYValues Keyframes.cameraXValues
           Keyframes.opacityValues app];
      rewrite !length_app, !length_map; cbn [length]; split; lia.
Qed.

(** X3. Only the last section's [scrollEnd] reaches the arrays: whatever
    ends the sections before the last one declare, the arrays are the same. *)
Theorem interior_scrollEnd_is_ignored :
  forall (init : list Keyframes.Section_) (l : Keyframes.Section_)
         (e : Keyframes.Section_ -> R),
    Keyframes.arraysOf (map (fun s => withScrollEnd (e s) s) init ++ [l])
    = Keyframes.arraysOf (init ++ [l]).
Proof.
  intros init l e. rewrite !arraysOf_snoc, !map_map. reflexivity.
Qed.

(** In a strictly increasing list that starts at [a], everything after the
    head is above any bound below [a]. *)
Lemma sorted_above (a b : R) (l : list R) :
  b < a -> StronglySorted Rlt (a :: l) -> Forall (Rlt b) (a :: l).
Proof.
  intros Hba Hs. inversion Hs as [| ? ? _ Hall]; subst.
  constructor; [exact Hba |].
  apply Forall_impl with (P := Rlt a); [intros c Hc; lra | exact Hall].
Qed.

(** Contiguous sections of positive width give strictly increasing
    breakpoints. *)
Lemma breakpoints_sorted :
  forall (rest : list Keyframes.Section_) (s : Keyframes.Section_),
    contiguous (s :: rest) -> positiveWidth (s :: rest) ->
    StronglySorted Rlt
      (map Keyframes.scrollStart (s :: rest)
       ++ [Keyframes.scrollEnd (last (s :: rest) s)]).
Proof.
  induction rest as [| r rest IH]; intros s Hc Hw.
  - inversion Hw as [| ? ? Hs _]; subst. cbn [map app last].
    repeat constructor. exact Hs.
  - destruct Hc as [Hsr Hc]. inversion Hw as [| ? ? Hs Hw']; subst.
    specialize (IH r Hc Hw').
    change (last (s :: r :: rest) s) with (last (r :: rest) s).
    rewrite (last_cons_default rest r s r).
    change (map Keyframes.scrollStart (s :: r :: rest)
            ++ [Keyframes.scrollEnd (last (r :: rest) r)])
      with (Keyframes.scrollStart s
            :: (map Keyframes.scrollStart (r :: rest)
                ++ [Keyframes.scrollEnd (last (r :: rest) r)])).
    constructor; [exact IH |].
    cbn [map app] in IH |- *. apply sorted_above; [lra | exact IH].
Qed.

(** X4. When the sections follow one another without gap or overlap and
    each has a positive width, the breakpoints handed to [useTransform] are
    strictly increasing. *)
Theorem contiguous_sections_give_increasing_breakpoints :
  forall (s : Keyframes.Section_) (rest : list Keyframes.Section_),
    contiguous (s :: rest) -> positiveWidth (s :: rest) ->
    StronglySorted Rlt
      (Keyframes.scrollBreakpoints (Keyframes.arraysOf (s :: rest))).
Proof.
  intros s rest Hc Hw. unfold Keyframes.arraysOf.
  rewrite forEach_samples by reflexivity.
  cbn [Keyframes.scrollBreakpoints app].
  apply breakpoints_sorted; assumption.
Qed.

Lemma shipped_sections_contiguous : contiguous Keyframes.sections.
Proof. cbn. repeat split; lra. Qed.

Lemma shipped_sections_positive : positiveWidth Keyframes.sections.
Proof. repeat constructor; cbn; lra. Qed.

Lemma contiguous_sections_give_increasing_breakpoints_witness :
  StronglySorted Rlt
    (Keyframes.scrollBreakpoints
       (Keyframes.arraysOf
          (Keyframes.hero
           :: [Keyframes.craft; Keyframes.collection; Keyframes.experience;
               Keyframes.contact]))).
Proof.
  apply contiguous_sections_give_increasing_breakpoints.
  - cbn. repeat split; lra.
  - repeat constructor; cbn; lra.
Defined.

(* ================================================================== *)
(** * Interpolation over the arrays of any contiguous sections *)
(* ================================================================== *)

Lemma breakpoints_sorted_of (sections : list Keyframes.Section_) :
  contiguous sections -> positiveWidth sections ->
  StronglySorted Rlt
    (Keyframes.scrollBreakpoints (Keyframes.arraysOf sections)).
Proof.
  intros Hc Hw. destruct sections as [| s rest]; [constructor |].
  unfold Keyframes.arraysOf. rewrite forEach_samples by reflexivity.
  cbn [Keyframes.scrollBreakpoints app].
  apply breakpoints_sorted; assumption.
Qed.

Lemma combine_samples {A : Type} (f g : A -> R) (tail1 tail2 : list R) :
  forall l : list A,
    combine (map f l ++ tail1) (map g l ++ tail2)
    = map (fun a => (f a, g a)) l ++ combine tail1 tail2.
Proof.
  induction l as [| a l IH]; [reflexivity |].
  cbn [map app combine]. rewrite IH. reflexivity.
Qed.

(** The breakpoint table of a channel. *)
Lemma table_snoc (c : Keyframes.Channel) (init : list Keyframes.Section_)
  (l : Keyframes.Section_) :
  combine (Keyframes.scrollBreakpoints (Keyframes.arraysOf (init ++ [l])))
          (Keyframes.valuesOf c (Keyframes.arraysOf (init ++ [l])))
  = map (fun s => (Keyframes.scrollStart s, authored c s)) init
    ++ [(Keyframes.scrollStart l, authored c l);
        (Keyframes.scrollEnd l, authored c l)].
Proof.
  rewrite valuesOf_snoc, arraysOf_snoc.
  cbn [Keyframes.scrollBreakpoints]. apply combine_samples.
Qed.

Lemma table_breakpoints (c : Keyframes.Channel)
  (init : list Keyframes.Section_) (l : Keyframes.Section_) :
  map fst
    (map (fun s => (Keyframes.scrollStart s, authored c s)) init
     ++ [(Keyframes.scrollStart l, authored c l);
         (Keyframes.scrollEnd l, authored c l)])
  = Keyframes.scrollBreakpoints (Keyframes.arraysOf (init ++ [l])).
Proof.
  rewrite arraysOf_snoc. cbn [Keyframes.scrollBreakpoints].
  rewrite map_app, map_map. reflexivity.
Qed.

(** At a breakpoint of a strictly increasing table the interpolation gives
    the breakpoint's own value. *)
Lemma interpolateFrom_at_breakpoint :
  forall (rest : list (R * R)) (p0 v0 p v : R),
    StronglySorted Rlt (p0 :: map fst rest) -> In (p, v) rest ->
    Keyframes.interpolateFrom p0 v0 rest p = v.
Proof.
  induction rest as [| [p1 v1] rest IH]; intros p0 v0 p v Hs Hin; [destruct Hin |].
  cbn [map fst] in Hs.
  inversion Hs as [| ? ? Hs1 Hall0]; subst.
  inversion Hall0 as [| ? ? H01 _]; subst.
  cbn [Keyframes.interpolateFrom]. destruct Hin as [E | Hin].
  - injection E as <- <-.
    destruct (Rle_dec p1 p1) as [_ | N]; [| lra].
    destruct (Req_dec_T p1 p0); [lra |]. field. lra.
  - assert (Hp : p1 < p).
    { inversion Hs1 as [| ? ? _ Hall1]; subst.
      rewrite Forall_forall in Hall1. apply Hall1.
      change p with (fst (p, v)). apply in_map, Hin. }
    destruct (Rle_dec p p1); [lra |].
    apply IH; assumption.
Qed.

Lemma interpolate_at_breakpoint (table : list (R * R)) (p v : R) :
  StronglySorted Rlt (map fst table) -> In (p, v) table ->
  Keyframes.interpolate table p = Some v.
Proof.
  intros Hs Hin. destruct table as [| [p0 v0] rest]; [destruct Hin |].
  cbn [Keyframes.interpolate]. f_equal. destruct Hin as [E | Hin].
  - injection E as <- <-. destruct (Rle_dec p0 p0); [reflexivity | lra].
  - assert (Hp : p0 < p).
    { cbn [map fst] in Hs. inversion Hs as [| ? ? _ Hall]; subst.
      rewrite Forall_forall in Hall. apply Hall.
      change p with (fst (p, v)). apply in_map, Hin. }
    destruct (Rle_dec p p0); [lra |].
    apply interpolateFrom_at_breakpoint; assumption.
Qed.

(** X5. For contiguous sections of positive width, the interpolated value
    of every channel at a section's [scrollStart] is the value that section
    authors, and at the last section's [scrollEnd] it is the last section's
    value. *)
Theorem keyframe_reached_at_section_start :
  forall (init : list Keyframes.Section_) (l s : Keyframes.Section_)
         (c : Keyframes.Channel),
    contiguous (init ++ [l]) -> positiveWidth (init ++ [l]) ->
    In s (init ++ [l]) ->
    Keyframes.useTransform (Keyframes.scrollStart s)
      (Keyframes.scrollBreakpoints (Keyframes.arraysOf (init ++ [l])))
      (Keyframes.valuesOf c (Keyframes.arraysOf (init ++ [l])))
    = Some (authored c s)
    /\ Keyframes.useTransform (Keyframes.scrollEnd l)
         (Keyframes.scrollBreakpoints (Keyframes.arraysOf (init ++ [l])))
         (Keyframes.valuesOf c (Keyframes.arraysOf (init ++ [l])))
       = Some (authored c l).
Proof.
  intros init l s c Hc Hw Hin.
  pose proof (breakpoints_sorted_of _ Hc Hw) as Hs.
  rewrite <- (table_breakpoints c) in Hs.
  unfold Keyframes.useTransform. rewrite table_snoc.
  split; apply interpolate_at_breakpoint; try exact Hs; apply in_or_app.
  - apply in_app_or in Hin. destruct Hin as [Hin | [<- | []]].
    + left. apply (in_map (fun s => (Keyframes.scrollStart s, authored c s))), Hin.
    + right. left. reflexivity.
  - right. right. left. reflexivity.
Qed.

Lemma keyframe_reached_at_section_start_witness :
  Keyframes.useTransform (Keyframes.scrollStart Keyframes.collection)
    (Keyframes.scrollBreakpoints
       (Keyframes.arraysOf
          ([Keyframes.hero; Keyframes.craft; Keyframes.collection;
            Keyframes.experience] ++ [Keyframes.contact])))
    (Keyframes.valuesOf Keyframes.RotationY
       (Keyframes.arraysOf
          ([Keyframes.hero; Keyframes.craft; Keyframes.collection;
            Keyframes.experience] ++ [Keyframes.contact])))
  = Some (authored Keyframes.RotationY Keyframes.collection)
  /\ Keyframes.useTransform (Keyframes.scrollEnd Keyframes.contact)
       (Keyframes.scrollBreakpoints
          (Keyframes.arraysOf
             ([Keyframes.hero; Keyframes.craft; Keyframes.collection;
               Keyframes.experience] ++ [Keyframes.contact])))
       (Keyframes.valuesOf Keyframes.RotationY
          (Keyframes.arraysOf
             ([Keyframes.hero; Keyframes.craft; Keyframes.collection;
               Keyframes.experience] ++ [Keyframes.contact])))
     = Some (authored Keyframes.RotationY Keyframes.contact).
Proof.
  apply keyframe_reached_at_section_start.
  - cbn. repeat split; lra.
  - repeat constructor; cbn; lra.
  - cbn. auto.
Defined.

(** Past the last but one breakpoint of a strictly increasing table whose
    last two values agree, the interpolation is constant. *)
Lemma interpolateFrom_flat_tail (pl e v progress : R) :
  forall (T : list (R * R)) (p0 v0 : R),
    StronglySorted Rlt (p0 :: map fst (T ++ [(pl, v); (e, v)])) ->
    p0 < progress -> pl <= progress ->
    Keyframes.interpolateFrom p0 v0 (T ++ [(pl, v); (e, v)]) progress = v.
Proof.
  induction T as [| [p1 v1] T IH]; intros p0 v0 Hs H0 Hl.
  - cbn [app map fst] in Hs. inversion Hs as [| ? ? _ Hall]; subst.
    inversion Hall as [| ? ? H0l _]; subst.
    cbn [app Keyframes.interpolateFrom].
    destruct (Rle_dec progress pl) as [Hle | Hgt].
    + assert (progress = pl) by lra. subst progress.
      destruct (Req_dec_T pl p0); [lra |]. field. lra.
    + destruct (Rle_dec progress e); [| reflexivity].
      destruct (Req_dec_T e pl); [reflexivity |]. field. lra.
  - cbn [app map fst] in Hs. inversion Hs as [| ? ? Hs1 _]; subst.
    assert (H1l : p1 < pl).
    { inversion Hs1 as [| ? ? _ Hall1]; subst.
      rewrite Forall_forall in Hall1. apply Hall1.
      rewrite map_app. apply in_or_app. right. left. reflexivity. }
    cbn [app Keyframes.interpolateFrom].
    destruct (Rle_dec progress p1); [lra |].
    apply IH; [exact Hs1 | lra | exact Hl].
Qed.

Lemma interpolate_flat_tail (pl e v progress : R) (T : list (R * R)) :
  StronglySorted Rlt (map fst (T ++ [(pl, v); (e, v)])) ->
  pl <= progress ->
  Keyframes.interpolate (T ++ [(pl, v); (e, v)]) progress = Some v.
Proof.
  intros Hs Hl. destruct T as [| [p0 v0] T].
  - cbn [app Keyframes.interpolate Keyframes.interpolateFrom]. f_equal.
    destruct (Rle_dec progress pl); [reflexivity |].
    destruct (Rle_dec progress e); [| reflexivity].
    destruct (Req_dec_T e pl); [reflexivity |]. field.
    cbn [app map fst] in Hs. inversion Hs as [| ? ? _ Hall]; subst.
    inversion Hall; subst. lra.
  - cbn [app map fst] in Hs.
    assert (H0l : p0 < pl).
    { inversion Hs as [| ? ? _ Hall]; subst.
      rewrite Forall_forall in Hall. apply Hall.
      rewrite map_app. apply in_or_app. right. left. reflexivity. }
    change (((p0, v0) :: T) ++ [(pl, v); (e, v)])
      with ((p0, v0) :: (T ++ [(pl, v); (e, v)])).
    cbn [Keyframes.interpolate]. f_equal.
    destruct (Rle_dec progress p0); [lra |].
    apply interpolateFrom_flat_tail; [exact Hs | lra | exact Hl].
Qed.

(** X6. For contiguous sections of positive width, every channel is
    constant from the last section's [scrollStart] on: throughout the last
    section, and beyond its end, the interpolated value is the value the
    last section authors. *)
Theorem last_section_is_flat :
  forall (init : list Keyframes.Section_) (l : Keyframes.Section_)
         (c : Keyframes.Channel) (progress : R),
    contiguous (init ++ [l]) -> positiveWidth (init ++ [l]) ->
    Keyframes.scrollStart l <= progress ->
    Keyframes.useTransform progress
      (Keyframes.scrollBreakpoints (Keyframes.arraysOf (init ++ [l])))
      (Keyframes.valuesOf c (Keyframes.arraysOf (init ++ [l])))
    = Some (authored c l).
Proof.
  intros init l c progress Hc Hw Hp.
  pose proof (breakpoints_sorted_of _ Hc Hw) as Hs.
  rewrite <- (table_breakpoints c) in Hs.
  unfold Keyframes.useTransform. rewrite table_snoc.
  apply interpolate_flat_tail; assumption.
Qed.

Lemma last_section_is_flat_witness :
  Keyframes.useTransform 0.9
    (Keyframes.scrollBreakpoints
       (Keyframes.arraysOf
          ([Keyframes.hero; Keyframes.craft; Keyframes.collection;
            Keyframes.experience] ++ [Keyframes.contact])))
    (Keyframes.valuesOf Keyframes.Opacity
       (Keyframes.arraysOf
          ([Keyframes.hero; Keyframes.craft; Keyframes.collection;
            Keyframes.experience] ++ [Keyframes.contact])))
  = Some (authored Keyframes.Opacity Keyframes.contact).
Proof.
  apply last_section_is_flat.
  - cbn. repeat split; lra.
  - repeat constructor; cbn; lra.
  - cbn. lra.
Defined.

(** Between two consecutive breakpoints of a strictly increasing table the
    interpolation is the straight line through the two samples. *)
Lemma interpolateFrom_segment (pa va pb vb progress : R) (T2 : list (R * R)) :
  forall (T1 : list (R * R)) (p0 v0 : R),
    StronglySorted Rlt (p0 :: map fst (T1 ++ (pa, va) :: (pb, vb) :: T2)) ->
    p0 < progress -> pa <= progress <= pb ->
    Keyframes.interpolateFrom p0 v0 (T1 ++ (pa, va) :: (pb, vb) :: T2) progress
    = va + (vb - va) * (progress - pa) / (pb - pa).
Proof.
  induction T1 as [| [p1 v1] T1 IH]; intros p0 v0 Hs H0 Hx.
  - cbn [app map fst] in Hs. inversion Hs as [| ? ? Hs1 Hall]; subst.
    inversion Hall as [| ? ? H0a _]; subst.
    inversion Hs1 as [| ? ? _ Hall1]; subst.
    inversion Hall1 as [| ? ? Hab _]; subst.
    cbn [app Keyframes.interpolateFrom].
    destruct (Rle_dec progress pa) as [Hle | Hgt].
    + assert (progress = pa) by lra. subst progress.
      destruct (Req_dec_T pa p0); [lra |]. field. lra.
    + destruct (Rle_dec progress pb); [| lra].
      destruct (Req_dec_T pb pa); [lra | reflexivity].
  - cbn [app map fst] in Hs. inversion Hs as [| ? ? Hs1 _]; subst.
    assert (H1a : p1 < pa).
    { inversion Hs1 as [| ? ? _ Hall1]; subst.
      rewrite Forall_forall in Hall1. apply Hall1.
      rewrite map_app. apply in_or_app. right. left. reflexivity. }
    cbn [app Keyframes.interpolateFrom].
    destruct (Rle_dec progress p1); [lra |].
    apply IH; [exact Hs1 | lra | exact Hx].
Qed.

Lemma interpolate_segment (pa va pb vb progress : R) (T1 T2 : list (R * R)) :
  StronglySorted Rlt (map fst (T1 ++ (pa, va) :: (pb, vb) :: T2)) ->
  pa <= progress <= pb ->
  Keyframes.interpolate (T1 ++ (pa, va) :: (pb, vb) :: T2) progress
  = Some (va + (vb - va) * (progress - pa) / (pb - pa)).
Proof.
  intros Hs Hx. destruct T1 as [| [p0 v0] T1].
  - cbn [app map fst] in Hs. inversion Hs as [| ? ? _ Hall]; subst.
    inversion Hall as [| ? ? Hab _]; subst.
    cbn [app Keyframes.interpolate Keyframes.interpolateFrom]. f_equal.
    destruct (Rle_dec progress pa).
    + assert (progress = pa) by lra. subst progress. field. lra.
    + destruct (Rle_dec progress pb); [| lra].
      destruct (Req_dec_T pb pa); [lra | reflexivity].
  - cbn [app map fst] in Hs.
    assert (H0a : p0 < pa).
    { inversion Hs as [| ? ? _ Hall]; subst.
      rewrite Forall_forall in Hall. apply Hall.
      rewrite map_app. apply in_or_app. right. left. reflexivity. }
    change (((p0, v0) :: T1) ++ (pa, va) :: (pb, vb) :: T2)
      with ((p0, v0) :: (T1 ++ (pa, va) :: (pb, vb) :: T2)).
    cbn [Keyframes.interpolate]. f_equal.
    destruct (Rle_dec progress p0); [lra |].
    apply interpolateFrom_segment; [exact Hs | lra | exact Hx].
Qed.

(** The breakpoint table of a channel, for sections split around two
    neighbours. *)
Lemma table_around (c : Keyframes.Channel)
  (before after : list Keyframes.Section_) (a b : Keyframes.Section_) :
  exists T2 : list (R * R),
    combine
      (Keyframes.scrollBreakpoints
         (Keyframes.arraysOf (before ++ a :: b :: after)))
      (Keyframes.valuesOf c (Keyframes.arraysOf (before ++ a :: b :: after)))
    = map (fun s => (Keyframes.scrollStart s, authored c s)) before
      ++ (Keyframes.scrollStart a, authored c a)
         :: (Keyframes.scrollStart b, authored c b) :: T2
    /\ map fst
         (map (fun s => (Keyframes.scrollStart s, authored c s)) before
          ++ (Keyframes.scrollStart a, authored c a)
             :: (Keyframes.scrollStart b, authored c b) :: T2)
       = Keyframes.scrollBreakpoints
           (Keyframes.arraysOf (before ++ a :: b :: after)).
Proof.
  assert (Hne : before ++ a :: b :: after <> [])
    by (destruct before; discriminate).
  destruct (exists_last Hne) as [init [l E]].
  rewrite E, table_snoc, <- (table_breakpoints c).
  set (pair := fun s => (Keyframes.scrollStart s, authored c s)).
  change [(Keyframes.scrollStart l, authored c l);
          (Keyframes.scrollEnd l, authored c l)]
    with (map pair [l] ++ [(Keyframes.scrollEnd l, authored c l)]).
  rewrite app_assoc, <- map_app, <- E.
  exists (map pair after ++ [(Keyframes.scrollEnd l, authored c l)]).
  rewrite map_app. cbn [map]. rewrite <- !app_assoc. cbn [app].
  split; reflexivity.
Qed.

(** X7. For contiguous sections of positive width, while the progress is
    within a section that has a successor, every channel runs on the
    straight line from the section's own value, at its start, to the next
    section's value, at the next section's start. *)
Theorem section_blends_into_next :
  forall (before after : list Keyframes.Section_) (a b : Keyframes.Section_)
         (c : Keyframes.Channel) (progress : R),
    contiguous (before ++ a :: b :: after) ->
    positiveWidth (before ++ a :: b :: after) ->
    Keyframes.scrollStart a <= progress <= Keyframes.scrollStart b ->
    Keyframes.useTransform progress
      (Keyframes.scrollBreakpoints
         (Keyframes.arraysOf (before ++ a :: b :: after)))
      (Keyframes.valuesOf c (Keyframes.arraysOf (before ++ a :: b :: after)))
    = Some (authored c a
            + (authored c b - authored c a)
              * (progress - Keyframes.scrollStart a)
              / (Keyframes.scrollStart b - Keyframes.scrollStart a)).
Proof.
  intros before after a b c progress Hc Hw Hx.
  pose proof (breakpoints_sorted_of _ Hc Hw) as Hs.
  destruct (table_around c before after a b) as [T2 [Etable Ebps]].
  unfold Keyframes.useTransform. rewrite Etable.
  apply interpolate_segment; [rewrite Ebps; exact Hs | exact Hx].
Qed.

Lemma section_blends_into_next_witness :
  Keyframes.useTransform 0.8
    (Keyframes.scrollBreakpoints
       (Keyframes.arraysOf
          ([Keyframes.hero; Keyframes.craft; Keyframes.collection]
           ++ Keyframes.experience :: Keyframes.contact :: [])))
    (Keyframes.valuesOf Keyframes.Opacity
       (Keyframes.arraysOf
          ([Keyframes.hero; Keyframes.craft; Keyframes.collection]
           ++ Keyframes.experience :: Keyframes.contact :: [])))
  = Some (authored Keyframes.Opacity Keyframes.experience
          + (authored Keyframes.Opacity Keyframes.contact
             - authored Keyframes.Opacity Keyframes.experience)
            * (0.8 - Keyframes.scrollStart Keyframes.experience)
            / (Keyframes.scrollStart Keyframes.contact
               - Keyframes.scrollStart Keyframes.experience)).
Proof.
  apply section_blends_into_next.
  - cbn. repeat split; lra.
  - repeat constructor; cbn; lra.
  - cbn. lra.
Defined.

(* ================================================================== *)
(** * More on the normalisation of SuitModel *)
(* ================================================================== *)

Lemma image_low (s t p u0 u1 : R) :
  u0 <= u1 -> t = - ((u1 + u0) / 2) * s + p ->
  Rmin (s * u0 + t) (s * u1 + t) = p - Rabs s * (u1 - u0) / 2.
Proof.
  intros Hu ->. unfold Rabs. destruct (Rcase_abs s) as [Hs | Hs].
  - rewrite Rmin_right by nra. field.
  - rewrite Rmin_left by nra. field.
Qed.

Lemma image_high (s t p u0 u1 : R) :
  u0 <= u1 -> t = - ((u1 + u0) / 2) * s + p ->
  Rmax (s * u0 + t) (s * u1 + t) = p + Rabs s * (u1 - u0) / 2.
Proof.
  intros Hu ->. unfold Rabs. destruct (Rcase_abs s) as [Hs | Hs].
  - rewrite Rmax_left by nra. field.
  - rewrite Rmax_right by nra. field.
Qed.

(** The image of a box under the transform [processedScene] writes: centred
    at the pivot, the y offset and 0, every raw dimension multiplied by the
    absolute value of the scale. *)
Lemma normalized_image
  (ts sm yo pv : R) (isDesktop : bool) (x0 y0 z0 x1 y1 z1 : R) :
  x0 <= x1 -> y0 <= y1 -> z0 <= z1 ->
  let s := ts / maxDimensionR x0 y0 z0 x1 y1 z1 * sm in
  imageBox
    {| scale := setScalar (Fin s);
       position := fin3 (- ((x1 + x0) / 2) * s + pivotOf isDesktop pv)
                        (- ((y1 + y0) / 2) * s + yo)
                        (- ((z1 + z0) / 2) * s) |}
    (mkBox3 (fin3 x0 y0 z0) (fin3 x1 y1 z1))
  = mkBox3
      (fin3 (pivotOf isDesktop pv - Rabs s * (x1 - x0) / 2)
            (yo - Rabs s * (y1 - y0) / 2)
            (0 - Rabs s * (z1 - z0) / 2))
      (fin3 (pivotOf isDesktop pv + Rabs s * (x1 - x0) / 2)
            (yo + Rabs s * (y1 - y0) / 2)
            (0 + Rabs s * (z1 - z0) / 2)).
Proof.
  intros Hx Hy Hz s. rewrite imageBox_finite.
  rewrite (image_low s _ (pivotOf isDesktop pv) x0 x1 Hx eq_refl).
  rewrite (image_low s _ yo y0 y1 Hy eq_refl).
  rewrite (image_low s _ 0 z0 z1 Hz) by ring.
  rewrite (image_high s _ (pivotOf isDesktop pv) x0 x1 Hx eq_refl).
  rewrite (image_high s _ yo y0 y1 Hy eq_refl).
  rewrite (image_high s _ 0 z0 z1 Hz) by ring.
  reflexivity.
Qed.

Lemma maxDimensionR_bounds (x0 y0 z0 x1 y1 z1 : R) :
  x1 - x0 <= maxDimensionR x0 y0 z0 x1 y1 z1
  /\ y1 - y0 <= maxDimensionR x0 y0 z0 x1 y1 z1
  /\ z1 - z0 <= maxDimensionR x0 y0 z0 x1 y1 z1.
Proof.
  unfold maxDimensionR.
  pose proof (Rmax_l (x1 - x0) (y1 - y0)).
  pose proof (Rmax_r (x1 - x0) (y1 - y0)).
  pose proof (Rmax_l (Rmax (x1 - x0) (y1 - y0)) (z1 - z0)).
  pose proof (Rmax_r (Rmax (x1 - x0) (y1 - y0)) (z1 - z0)).
  repeat split; lra.
Qed.

(** X8. The normalisation scales uniformly and fits the model into the
    target size: for a box of finite corners with a positive largest
    dimension, every dimension of the image is the raw dimension times the
    absolute value of the scale, and none exceeds the absolute value of
    [targetSize * scaleMultiplier]. *)
Theorem normalized_model_fits_target :
  forall (ts sm yo pv : R) (isDesktop : bool) (x0 y0 z0 x1 y1 z1 : R),
    x0 <= x1 -> y0 <= y1 -> z0 <= z1 ->
    0 < maxDimensionR x0 y0 z0 x1 y1 z1 ->
    exists o : Object3D,
      SuitModel.processedScene (modelConfig ts sm yo pv)
        (mkBox3 (fin3 x0 y0 z0) (fin3 x1 y1 z1)) isDesktop = Normal o
      /\ getSize (imageBox o (mkBox3 (fin3 x0 y0 z0) (fin3 x1 y1 z1)))
         = fin3 (Rabs (ts / maxDimensionR x0 y0 z0 x1 y1 z1 * sm) * (x1 - x0))
                (Rabs (ts / maxDimensionR x0 y0 z0 x1 y1 z1 * sm) * (y1 - y0))
                (Rabs (ts / maxDimensionR x0 y0 z0 x1 y1 z1 * sm) * (z1 - z0))
      /\ Rabs (ts / maxDimensionR x0 y0 z0 x1 y1 z1 * sm) * (x1 - x0)
         <= Rabs (ts * sm)
      /\ Rabs (ts / maxDimensionR x0 y0 z0 x1 y1 z1 * sm) * (y1 - y0)
         <= Rabs (ts * sm)
      /\ Rabs (ts / maxDimensionR x0 y0 z0 x1 y1 z1 * sm) * (z1 - z0)
         <= Rabs (ts * sm).
Proof.
  intros ts sm yo pv isDesktop x0 y0 z0 x1 y1 z1 Hx Hy Hz HM.
  eexists. split; [apply processedScene_finite; lra |].
  split.
  - rewrite normalized_image by assumption.
    unfold getSize, fin3. cbn [x y z min max sub neg add].
    f_equal; f_equal; field.
  - destruct (maxDimensionR_bounds x0 y0 z0 x1 y1 z1) as (Bx & By & Bz).
    rewrite <- (scaled_maxDimension ts sm _ HM).
    pose proof (Rabs_pos (ts / maxDimensionR x0 y0 z0 x1 y1 z1 * sm)) as Hk.
    repeat split; apply Rmult_le_compat_l; assumption.
Qed.

Lemma normalized_model_fits_target_witness :
  exists o : Object3D,
    SuitModel.processedScene (modelConfig 3 1.0 0 0.5)
      (mkBox3 (fin3 0 0 0) (fin3 1 2 1)) true = Normal o
    /\ getSize (imageBox o (mkBox3 (fin3 0 0 0) (fin3 1 2 1)))
       = fin3 (Rabs (3 / maxDimensionR 0 0 0 1 2 1 * 1.0) * (1 - 0))
              (Rabs (3 / maxDimensionR 0 0 0 1 2 1 * 1.0) * (2 - 0))
              (Rabs (3 / maxDimensionR 0 0 0 1 2 1 * 1.0) * (1 - 0))
    /\ Rabs (3 / maxDimensionR 0 0 0 1 2 1 * 1.0) * (1 - 0) <= Rabs (3 * 1.0)
    /\ Rabs (3 / maxDimensionR 0 0 0 1 2 1 * 1.0) * (2 - 0) <= Rabs (3 * 1.0)
    /\ Rabs (3 / maxDimensionR 0 0 0 1 2 1 * 1.0) * (1 - 0) <= Rabs (3 * 1.0).
Proof.
  apply (normalized_model_fits_target 3 1.0 0 0.5 true 0 0 0 1 2 1);
    try lra.
  unfold maxDimensionR, Rmax. repeat destruct Rle_dec; lra.
Defined.

Lemma maxDimensionR_rescaled (k dx dy dz x0 y0 z0 x1 y1 z1 : R) :
  0 <= k ->
  maxDimensionR (k * x0 + dx) (k * y0 + dy) (k * z0 + dz)
                (k * x1 + dx) (k * y1 + dy) (k * z1 + dz)
  = k * maxDimensionR x0 y0 z0 x1 y1 z1.
Proof.
  intros Hk. unfold maxDimensionR.
  replace (k * x1 + dx - (k * x0 + dx)) with (k * (x1 - x0)) by ring.
  replace (k * y1 + dy - (k * y0 + dy)) with (k * (y1 - y0)) by ring.
  replace (k * z1 + dz - (k * z0 + dz)) with (k * (z1 - z0)) by ring.
  rewrite !RmaxRmult by exact Hk. reflexivity.
Qed.

Lemma rescaled_extent (ts sm M k u0 u1 d : R) :
  0 < k -> 0 < M ->
  Rabs (ts / (k * M) * sm) * (k * u1 + d - (k * u0 + d))
  = Rabs (ts / M * sm) * (u1 - u0).
Proof.
  intros Hk HM.
  replace (ts / (k * M) * sm) with (ts / M * sm * / k) by (field; lra).
  rewrite Rabs_mult, (Rabs_pos_eq (/ k))
    by (left; apply Rinv_0_lt_compat; exact Hk).
  field. lra.
Qed.

(** X9. The framing does not depend on where the raw model sits or on its
    unit of length: moving the raw box by any vector and rescaling it by any
    positive factor leaves the image of the box under the computed transform
    unchanged. *)
Theorem normalization_ignores_placement_and_units :
  forall (ts sm yo pv : R) (isDesktop : bool) (k dx dy dz : R)
         (x0 y0 z0 x1 y1 z1 : R),
    0 < k -> x0 <= x1 -> y0 <= y1 -> z0 <= z1 ->
    0 < maxDimensionR x0 y0 z0 x1 y1 z1 ->
    exists o o' : Object3D,
      SuitModel.processedScene (modelConfig ts sm yo pv)
        (mkBox3 (fin3 x0 y0 z0) (fin3 x1 y1 z1)) isDesktop = Normal o
      /\ SuitModel.processedScene (modelConfig ts sm yo pv)
           (rescaledBox k dx dy dz x0 y0 z0 x1 y1 z1) isDesktop = Normal o'
      /\ imageBox o' (rescaledBox k dx dy dz x0 y0 z0 x1 y1 z1)
         = imageBox o (mkBox3 (fin3 x0 y0 z0) (fin3 x1 y1 z1)).
Proof.
  intros ts sm yo pv isDesktop k dx dy dz x0 y0 z0 x1 y1 z1 Hk Hx Hy Hz HM.
  assert (HM' : maxDimensionR (k * x0 + dx) (k * y0 + dy) (k * z0 + dz)
                  (k * x1 + dx) (k * y1 + dy) (k * z1 + dz)
                = k * maxDimensionR x0 y0 z0 x1 y1 z1)
    by (apply maxDimensionR_rescaled; lra).
  do 2 eexists. split; [apply processedScene_finite; lra |].
  split; [unfold rescaledBox; apply processedScene_finite; rewrite HM'; nra |].
  unfold rescaledBox.
  rewrite !normalized_image by nra.
  rewrite HM'.
  rewrite !rescaled_extent by assumption. reflexivity.
Qed.

Lemma normalization_ignores_placement_and_units_witness :
  exists o o' : Object3D,
    SuitModel.processedScene (modelConfig 3 1.0 0 0.5) unitBox true = Normal o
    /\ SuitModel.processedScene (modelConfig 3 1.0 0 0.5)
         (rescaledBox 100 5 (-2) 7 0 0 0 1 1 1) true = Normal o'
    /\ imageBox o' (rescaledBox 100 5 (-2) 7 0 0 0 1 1 1)
       = imageBox o unitBox.
Proof.
  apply (normalization_ignores_placement_and_units
           3 1.0 0 0.5 true 100 5 (-2) 7 0 0 0 1 1 1); try lra.
  unfold maxDimensionR, Rmax. repeat destruct Rle_dec; lra.
Defined.

Lemma centred_maxDimension (a b c k dx dy dz : R) :
  0 <= k ->
  maxDimensionR (a - k * dx / 2) (b - k * dy / 2) (c - k * dz / 2)
                (a + k * dx / 2) (b + k * dy / 2) (c + k * dz / 2)
  = k * Rmax (Rmax dx dy) dz.
Proof.
  intros Hk. unfold maxDimensionR.
  replace (a + k * dx / 2 - (a - k * dx / 2)) with (k * dx) by field.
  replace (b + k * dy / 2 - (b - k * dy / 2)) with (k * dy) by field.
  replace (c + k * dz / 2 - (c - k * dz / 2)) with (k * dz) by field.
  rewrite !RmaxRmult by exact Hk. reflexivity.
Qed.

(** X10. Normalising twice changes nothing: for a positive
    [targetSize * scaleMultiplier], the transform computed for the image of
    a normalised box is the identity, scale 1 and no translation. *)
Theorem normalization_is_idempotent :
  forall (ts sm yo pv : R) (isDesktop : bool) (x0 y0 z0 x1 y1 z1 : R),
    x0 <= x1 -> y0 <= y1 -> z0 <= z1 ->
    0 < maxDimensionR x0 y0 z0 x1 y1 z1 ->
    0 < ts * sm ->
    exists o : Object3D,
      SuitModel.processedScene (modelConfig ts sm yo pv)
        (mkBox3 (fin3 x0 y0 z0) (fin3 x1 y1 z1)) isDesktop = Normal o
      /\ SuitModel.processedScene (modelConfig ts sm yo pv)
           (imageBox o (mkBox3 (fin3 x0 y0 z0) (fin3 x1 y1 z1))) isDesktop
         = Normal {| scale := setScalar (Fin 1); position := fin3 0 0 0 |}.
Proof.
  intros ts sm yo pv isDesktop x0 y0 z0 x1 y1 z1 Hx Hy Hz HM Hpos.
  eexists. split; [apply processedScene_finite; lra |].
  rewrite normalized_image by assumption.
  set (k := Rabs (ts / maxDimensionR x0 y0 z0 x1 y1 z1 * sm)).
  assert (Hk : 0 <= k) by apply Rabs_pos.
  assert (EM : maxDimensionR
                 (pivotOf isDesktop pv - k * (x1 - x0) / 2)
                 (yo - k * (y1 - y0) / 2) (0 - k * (z1 - z0) / 2)
                 (pivotOf isDesktop pv + k * (x1 - x0) / 2)
                 (yo + k * (y1 - y0) / 2) (0 + k * (z1 - z0) / 2)
               = ts * sm).
  { rewrite centred_maxDimension by exact Hk.
    fold (maxDimensionR x0 y0 z0 x1 y1 z1). unfold k.
    rewrite scaled_maxDimension by exact HM. apply Rabs_pos_eq. lra. }
  rewrite processedScene_finite by (rewrite EM; lra).
  rewrite EM.
  assert (Hts : ts <> 0) by (intros ->; lra).
  assert (Hsm : sm <> 0) by (intros ->; lra).
  unfold setScalar, fin3.
  do 2 f_equal; f_equal; f_equal; field; split; assumption.
Qed.

Lemma normalization_is_idempotent_witness :
  exists o : Object3D,
    SuitModel.processedScene (modelConfig 3 1.0 0 0.5) unitBox true = Normal o
    /\ SuitModel.processedScene (modelConfig 3 1.0 0 0.5)
         (imageBox o unitBox) true
       = Normal {| scale := setScalar (Fin 1); position := fin3 0 0 0 |}.
Proof.
  apply (normalization_is_idempotent 3 1.0 0 0.5 true 0 0 0 1 1 1); try lra.
  unfold maxDimensionR, Rmax. repeat destruct Rle_dec; lra.
Defined.

Lemma add_zero_r (a : number) : (a + Fin 0)%js = a.
Proof. destruct a; try reflexivity. cbn [add]. f_equal. ring. Qed.

(** X11. On a narrow viewport the component with the pivot computes, for
    every box, exactly what the earlier component computes; on a desktop
    viewport the scale and the y and z of the position are still the earlier
    ones and x is the earlier x plus the pivot offset. *)
Theorem pivot_extends_earlier_component :
  forall (c : ModelConfig) (box : Box3),
    SuitModel.processedScene c box false
      = Earlier.SuitModel.processedScene c box
    /\ exists o e : Object3D,
         SuitModel.processedScene c box true = Normal o
         /\ Earlier.SuitModel.processedScene c box = Normal e
         /\ scale o = scale e
         /\ x (position o) = (x (position e) + desktopPivotOffsetX c)%js
         /\ y (position o) = y (position e)
         /\ z (position o) = z (position e).
Proof.
  intros c box. split.
  - unfold SuitModel.processedScene, Earlier.SuitModel.processedScene.
    rewrite add_zero_r. reflexivity.
  - do 2 eexists. repeat split; reflexivity.
Qed.

(* ================================================================== *)
(** * More on the frame callbacks *)
(* ================================================================== *)

Lemma rotationFrames_unmounted (currentRotation : number) (n : nat) :
  rotationFrames currentRotation n None = None.
Proof.
  induction n as [| n IH]; [reflexivity |].
  cbn [rotationFrames]. rewrite IH. reflexivity.
Qed.

(** X12. Each frame leaves the suit's rotation with nine tenths of its
    distance to the target, on the same side of it: after [n] frames the
    rotation differs from the target by [0.9 ^ n] times the initial
    difference. While the group is not mounted the frames do nothing. *)
Theorem rotation_error_decays_geometrically :
  forall (currentRotation rotation : R) (n : nat),
    (exists r : R,
       rotationFrames (Fin currentRotation) n (Some (Fin rotation))
       = Some (Fin r)
       /\ r - currentRotation = 0.9 ^ n * (rotation - currentRotation))
    /\ rotationFrames (Fin currentRotation) n None = None.
Proof.
  intros currentRotation rotation n. split.
  - exists (relaxed 0.1 currentRotation rotation n).
    split; [apply rotationFrames_finite |].
    unfold relaxed. replace (1 - 0.1) with 0.9 by lra. ring.
  - apply rotationFrames_unmounted.
Qed.

(** X13. With a positive viewport and a non-zero zoom the camera stays
    finite and moves on the straight line to its target: after [n] frames
    each coordinate differs from the target's by [0.95 ^ n] times the
    initial difference. *)
Theorem camera_error_decays_geometrically :
  forall (c : CameraConfig) (fovDegrees baseDistance pixelOffsetX w h : R)
         (sx sy sz : R) (targetRef : Vector3) (a : Spec.AnimationState)
         (n : nat),
    0 < w -> 0 < h -> Spec.zoom a <> 0 ->
    exists (qx qy qz : R) (targetRef' : Vector3),
      cameraFrames (cameraConfig fovDegrees baseDistance c) (Fin pixelOffsetX)
        (mkSize (Fin w) (Fin h)) n (cameraState (sx, sy, sz) targetRef a)
      = Normal (cameraState (qx, qy, qz) targetRef' a)
      /\ qx - (Spec.cameraHorizontalOffset a
               + Spec.worldOffsetX a w h fovDegrees baseDistance pixelOffsetX)
         = 0.95 ^ n
           * (sx - (Spec.cameraHorizontalOffset a
                    + Spec.worldOffsetX a w h fovDegrees baseDistance
                        pixelOffsetX))
      /\ qy - Spec.cameraVerticalOffset a
         = 0.95 ^ n * (sy - Spec.cameraVerticalOffset a)
      /\ qz - Spec.distance a baseDistance
         = 0.95 ^ n * (sz - Spec.distance a baseDistance).
Proof.
  intros c fovDegrees baseDistance pixelOffsetX w h sx sy sz targetRef a n
    Hw Hh Hz.
  destruct (cameraFrames_finite c fovDegrees baseDistance pixelOffsetX w h
              (sx, sy, sz) targetRef a n Hw Hh Hz) as [targetRef' E].
  unfold Spec.targetPosition, relaxed3 in E.
  do 4 eexists. split; [exact E |].
  unfold relaxed. replace (1 - 0.05) with 0.95 by lra.
  repeat split; ring.
Qed.

Lemma camera_error_decays_geometrically_witness :
  exists (qx qy qz : R) (targetRef' : Vector3),
    cameraFrames (cameraConfig 45 5 CAMERA_CONFIG) (Fin (-400))
      (mkSize (Fin 1920) (Fin 1080)) 60
      (cameraState (2, 1.6, 5) (fin3 2 1.6 5) heroState)
    = Normal (cameraState (qx, qy, qz) targetRef' heroState)
    /\ qx - (Spec.cameraHorizontalOffset heroState
             + Spec.worldOffsetX heroState 1920 1080 45 5 (-400))
       = 0.95 ^ 60
         * (2 - (Spec.cameraHorizontalOffset heroState
                 + Spec.worldOffsetX heroState 1920 1080 45 5 (-400)))
    /\ qy - Spec.cameraVerticalOffset heroState
       = 0.95 ^ 60 * (1.6 - Spec.cameraVerticalOffset heroState)
    /\ qz - Spec.distance heroState 5
       = 0.95 ^ 60 * (5 - Spec.distance heroState 5).
Proof.
  apply (camera_error_decays_geometrically CAMERA_CONFIG 45 5 (-400)
           1920 1080 2 1.6 5 (fin3 2 1.6 5) heroState 60);
    [lra | lra | simpl; lra].
Defined.

(** X14. The world-space shift of the pixel offset does not depend on the
    viewport's width: the width cancels, and the target's x is the
    horizontal offset plus the pixel offset times the world height of the
    viewport per pixel of its height. Two viewports of the same height give
    the same frame. *)
Theorem pixel_offset_is_independent_of_width :
  forall (c : CameraConfig) (fovDegrees baseDistance pixelOffsetX : R)
         (w1 w2 h : R) (previous : Spec.Position) (targetRef : Vector3)
         (a : Spec.AnimationState),
    0 < w1 -> 0 < w2 -> 0 < h -> Spec.zoom a <> 0 ->
    CameraController.useFrame (cameraConfig fovDegrees baseDistance c)
      (Fin pixelOffsetX) (mkSize (Fin w1) (Fin h))
      (cameraState previous targetRef a)
    = CameraController.useFrame (cameraConfig fovDegrees baseDistance c)
        (Fin pixelOffsetX) (mkSize (Fin w2) (Fin h))
        (cameraState previous targetRef a)
    /\ x (CameraController.frameTarget (cameraConfig fovDegrees baseDistance c)
            (Fin pixelOffsetX) (mkSize (Fin w1) (Fin h))
            (cameraState previous targetRef a))
       = Fin (Spec.cameraHorizontalOffset a
              + pixelOffsetX
                * (Spec.worldViewportHeightAtDistance a fovDegrees baseDistance
                   / h)).
Proof.
  intros c fovDegrees baseDistance pixelOffsetX w1 w2 h previous targetRef a
    H1 H2 Hh Hz.
  assert (E : forall w, 0 < w ->
            Spec.worldOffsetX a w h fovDegrees baseDistance pixelOffsetX
            = pixelOffsetX
              * (Spec.worldViewportHeightAtDistance a fovDegrees baseDistance
                 / h)).
  { intros w Hw. unfold Spec.worldOffsetX, Spec.worldViewportWidthAtDistance.
    field. lra. }
  unfold CameraController.useFrame.
  rewrite !frameTarget_finite by assumption.
  unfold Spec.targetPosition. rewrite (E w1 H1), (E w2 H2).
  split; reflexivity.
Qed.

Lemma pixel_offset_is_independent_of_width_witness :
  CameraController.useFrame (cameraConfig 45 5 CAMERA_CONFIG)
    (Fin (-400)) (mkSize (Fin 1920) (Fin 1080))
    (cameraState defaultCamera (fin3 2 1.6 5) heroState)
  = CameraController.useFrame (cameraConfig 45 5 CAMERA_CONFIG)
      (Fin (-400)) (mkSize (Fin 800) (Fin 1080))
      (cameraState defaultCamera (fin3 2 1.6 5) heroState)
  /\ x (CameraController.frameTarget (cameraConfig 45 5 CAMERA_CONFIG)
          (Fin (-400)) (mkSize (Fin 1920) (Fin 1080))
          (cameraState defaultCamera (fin3 2 1.6 5) heroState))
     = Fin (Spec.cameraHorizontalOffset heroState
            + -400 * (Spec.worldViewportHeightAtDistance heroState 45 5 / 1080)).
Proof.
  apply (pixel_offset_is_independent_of_width CAMERA_CONFIG 45 5 (-400)
           1920 800 1080 defaultCamera (fin3 2 1.6 5) heroState);
    [lra | lra | lra | simpl; lra].
Defined.

(** X15. A larger zoom brings the camera closer: for a positive base
    distance and positive zooms, the target's distance is [baseZ / zoom],
    strictly smaller for the larger zoom, whatever the viewport and the
    pixel offset are. *)
Theorem larger_zoom_is_closer :
  forall (c : CameraConfig) (fovDegrees baseDistance zoom1 zoom2 : R)
         (offsetXPx : number) (size : Size)
         (s1 s2 : CameraController.State),
    0 < baseDistance -> 0 < zoom1 -> zoom1 < zoom2 ->
    CameraController.currentZoom s1 = Fin zoom1 ->
    CameraController.currentZoom s2 = Fin zoom2 ->
    z (CameraController.frameTarget (cameraConfig fovDegrees baseDistance c)
         offsetXPx size s1) = Fin (baseDistance / zoom1)
    /\ z (CameraController.frameTarget (cameraConfig fovDegrees baseDistance c)
            offsetXPx size s2) = Fin (baseDistance / zoom2)
    /\ 0 < baseDistance / zoom2 < baseDistance / zoom1.
Proof.
  intros c fovDegrees baseDistance zoom1 zoom2 offsetXPx size s1 s2
    Hb H1 H12 E1 E2.
  unfold CameraController.frameTarget.
  cbn [z cameraConfig defaultPosition]. rewrite E1, E2.
  rewrite !div_fin by lra.
  split; [reflexivity |]. split; [reflexivity |].
  assert (0 < / zoom2) by (apply Rinv_0_lt_compat; lra).
  assert (/ zoom2 < / zoom1) by (apply Rinv_lt_contravar; nra).
  unfold Rdiv. split; nra.
Qed.

Lemma larger_zoom_is_closer_witness :
  z (CameraController.frameTarget (cameraConfig 45 5 CAMERA_CONFIG)
       (Fin (-400)) (mkSize (Fin 1920) (Fin 1080))
       (CameraController.mkState (fin3 2 1.6 5) (fin3 2 1.6 5)
          (Fin 0.95) (Fin 1.7) (Fin 2)))
  = Fin (5 / 0.95)
  /\ z (CameraController.frameTarget (cameraConfig 45 5 CAMERA_CONFIG)
          (Fin (-400)) (mkSize (Fin 1920) (Fin 1080))
          (CameraController.mkState (fin3 2 1.6 5) (fin3 2 1.6 5)
             (Fin 3) (Fin 1.6) (Fin 2)))
     = Fin (5 / 3)
  /\ 0 < 5 / 3 < 5 / 0.95.
Proof.
  apply (larger_zoom_is_closer CAMERA_CONFIG 45 5 0.95 3);
    [lra | lra | lra | reflexivity | reflexivity].
Defined.

(** X16. A viewport of width zero is as unguarded as one of height zero:
    the pixel offset is divided by the width, and the x of the new camera
    position is never finite, for every height, offset and state. *)
Theorem zero_width_frame :
  forall (c : CameraConfig) (offsetXPx viewportHeight : number)
         (s : CameraController.State),
  exists s' : CameraController.State,
    CameraController.useFrame c offsetXPx (mkSize (Fin 0) viewportHeight) s
      = Normal s'
    /\ isFinite (x (CameraController.camera_position s')) = false
    /\ y (CameraController.camera_position s')
       = THREE.lerp (y (CameraController.camera_position s))
           (CameraController.currentCameraY s) (Fin 0.05)
    /\ z (CameraController.camera_position s')
       = THREE.lerp (z (CameraController.camera_position s))
           (z (defaultPosition c) / CameraController.currentZoom s)%js
           (Fin 0.05).
Proof.
  intros c offsetXPx h s. eexists. split; [reflexivity |].
  split; [| split; reflexivity].
  cbn [CameraController.camera_position Vector3_lerp x
       CameraController.frameTarget width height].
  apply lerp_not_finite_target, add_not_finite_r, mul_not_finite_l,
    div_by_zero_not_finite.
Qed.

(** The earlier frame callback on finite values: the target's x is the x the
    ref holds, and [n] frames are [n] smoothing steps toward that target. *)
Lemma earlier_frames_finite (c : CameraConfig) (baseDistance tx cy zoom : R)
  (px py pz : R) :
  zoom <> 0 -> z (defaultPosition c) = Fin baseDistance ->
  forall (n : nat) (targetRef : Vector3),
    x targetRef = Fin tx ->
    exists targetRef' : Vector3,
      x targetRef' = Fin tx
      /\ Earlier.CameraController.frames c n
           (Earlier.CameraController.mkState (fin3 px py pz) targetRef
              (Fin zoom) (Fin cy))
         = Normal
             (Earlier.CameraController.mkState
                (fin3 (relaxed 0.05 tx px n) (relaxed 0.05 cy py n)
                      (relaxed 0.05 (baseDistance / zoom) pz n))
                targetRef' (Fin zoom) (Fin cy)).
Proof.
  intros Hz Hbase. induction n as [| n IH]; intros targetRef Hx.
  - exists targetRef. split; [exact Hx |].
    cbn [Earlier.CameraController.frames]. unfold relaxed, fin3.
    do 3 f_equal; f_equal; simpl; ring.
  - destruct (IH targetRef Hx) as [targetRef' [Hx' E]].
    exists (fin3 tx cy (baseDistance / zoom)). split; [reflexivity |].
    cbn [Earlier.CameraController.frames]. rewrite E.
    unfold Earlier.CameraController.useFrame.
    cbn [Earlier.CameraController.targetPosition
         Earlier.CameraController.currentCameraY
         Earlier.CameraController.currentZoom
         Earlier.CameraController.camera_position].
    rewrite Hx', Hbase, div_fin by exact Hz.
    unfold Vector3_lerp, fin3. cbn [x y z].
    rewrite !lerp_fin, !relaxed_step. reflexivity.
Qed.

(** X17. The component with [cameraX] and [offsetXPx] extends the earlier
    one: when neither prop is given to the camera controller, so that the
    offset is its default 0 and the camera x its default, then on a positive
    viewport with a non-zero zoom the camera is, after any number of frames
    from mount, exactly where the earlier component puts it. *)
Theorem camera_defaults_reproduce_earlier_component :
  forall (zoom cameraY w h : R) (n : nat),
    0 < w -> 0 < h -> zoom <> 0 ->
    exists (s' : CameraController.State)
           (e' : Earlier.CameraController.State),
      cameraFrames CAMERA_CONFIG
        (CameraController.offsetXPx_or_default
           (CameraController.mkProps (Fin zoom) (Fin cameraY) None None))
        (mkSize (Fin w) (Fin h)) n
        (CameraController.init CAMERA_CONFIG
           (CameraController.mkProps (Fin zoom) (Fin cameraY) None None))
      = Normal s'
      /\ Earlier.CameraController.frames CAMERA_CONFIG n
           (Earlier.CameraController.init CAMERA_CONFIG
              (Earlier.CameraController.mkProps (Fin zoom) (Fin cameraY)))
         = Normal e'
      /\ CameraController.camera_position s'
         = Earlier.CameraController.camera_position e'.
Proof.
  intros zoom cameraY w h n Hw Hh Hz.
  set (a := Spec.mkAnimationState 0 zoom cameraY 2 0).
  destruct (cameraFrames_finite CAMERA_CONFIG 45 5 0 w h (2, 1.6, 5)
              (fin3 2 1.6 5) a n Hw Hh Hz) as [targetRef' E].
  destruct (earlier_frames_finite CAMERA_CONFIG 5 2 cameraY zoom 2 1.6 5
              Hz eq_refl n (fin3 2 1.6 5) eq_refl) as [targetRefE [_ EE]].
  do 2 eexists. split; [exact E |]. split; [exact EE |].
  cbn [CameraController.camera_position cameraState
       Earlier.CameraController.camera_position].
  unfold Spec.targetPosition, relaxed3, ofPosition.
  replace (Spec.cameraHorizontalOffset a + Spec.worldOffsetX a w h 45 5 0)
    with 2.
  - reflexivity.
  - unfold Spec.worldOffsetX. cbn [Spec.cameraHorizontalOffset a]. lra.
Qed.

Lemma camera_defaults_reproduce_earlier_component_witness :
  exists (s' : CameraController.State)
         (e' : Earlier.CameraController.State),
    cameraFrames CAMERA_CONFIG
      (CameraController.offsetXPx_or_default
         (CameraController.mkProps (Fin 3) (Fin 1.6) None None))
      (mkSize (Fin 1920) (Fin 1080)) 10
      (CameraController.init CAMERA_CONFIG
         (CameraController.mkProps (Fin 3) (Fin 1.6) None None))
    = Normal s'
    /\ Earlier.CameraController.frames CAMERA_CONFIG 10
         (Earlier.CameraController.init CAMERA_CONFIG
            (Earlier.CameraController.mkProps (Fin 3) (Fin 1.6)))
       = Normal e'
    /\ CameraController.camera_position s'
       = Earlier.CameraController.camera_position e'.
Proof.
  apply (camera_defaults_reproduce_earlier_component 3 1.6 1920 1080 10); lra.
Defined.

(* ================================================================== *)
(** * The page as wired *)
(* ================================================================== *)

Lemma interpolated_cameraY_range (progress v : R) :
  Keyframes.useSuitScrollAnimation Keyframes.CameraY progress = Some v ->
  1.6 <= v <= 1.8.
Proof.
  intros Hv.
  pose proof (interpolate_bounds _ _ _ progress v
                (table_values_authored Keyframes.CameraY) Hv) as Hb.
  assert (Emin : minimum (map (authored Keyframes.CameraY) Keyframes.sections)
                 = 1.6)
    by (unfold minimum; simpl; minmax_cases').
  assert (Emax : maximum (map (authored Keyframes.CameraY) Keyframes.sections)
                 = 1.8)
    by (unfold maximum; simpl; minmax_cases').
  rewrite Emin, Emax in Hb. exact Hb.
Qed.

(** X18. On the page as wired, where the background scene mounts the
    canvas of [src/components/ThreeSuitCanvas.tsx], the frame callback reads
    no viewport and for every scroll progress completes with a finite
    target: its x is the 2 the target ref holds since mount, its height is
    the interpolated camera height, between 1.6 and 1.8, and its distance is
    5 over the interpolated zoom, between 5/3 and 5/0.95. The hook's
    [cameraX] channel is not handed to the canvas and does not enter the
    target. *)
Theorem page_camera_target_is_finite :
  forall (progress : R) (position targetRef : Vector3),
    x targetRef = x (defaultPosition CAMERA_CONFIG) ->
    exists (props : Earlier.ThreeSuitCanvas.Props) (zoom cameraY : R)
           (e' : Earlier.CameraController.State),
      Home.canvasProps progress = Some props
      /\ Keyframes.useSuitScrollAnimation Keyframes.Zoom progress = Some zoom
      /\ Keyframes.useSuitScrollAnimation Keyframes.CameraY progress
         = Some cameraY
      /\ Earlier.CameraController.useFrame CAMERA_CONFIG
           (Home.cameraCells props position targetRef)
         = Normal e'
      /\ Earlier.CameraController.targetPosition e'
         = fin3 2 cameraY (5 / zoom)
      /\ Earlier.CameraController.camera_position e'
         = Vector3_lerp position (fin3 2 cameraY (5 / zoom)) (Fin 0.05)
      /\ 1.6 <= cameraY <= 1.8
      /\ 5 / 3 <= 5 / zoom <= 5 / 0.95.
Proof.
  intros progress position targetRef Hx.
  destruct (interpolation_is_total Keyframes.RotationY progress) as [r Er].
  destruct (interpolation_is_total Keyframes.Zoom progress) as [zm Ez].
  destruct (interpolation_is_total Keyframes.CameraY progress) as [cy Ey].
  pose proof (interpolated_zoom_is_positive progress zm Ez) as Hzm.
  pose proof (interpolated_cameraY_range progress cy Ey) as Hcy.
  exists (Earlier.ThreeSuitCanvas.mkProps (Fin r) (Fin zm) (Some (Fin cy))),
    zm, cy.
  eexists. split; [unfold Home.canvasProps; rewrite Er, Ez, Ey; reflexivity |].
  split; [exact Ez |]. split; [exact Ey |].
  split; [reflexivity |].
  assert (Et : mkVector3 (x targetRef) (Fin cy) (Fin 5 / Fin zm)%js
               = fin3 2 cy (5 / zm)).
  { rewrite Hx, div_fin by lra. reflexivity. }
  split; [exact Et |]. split; [| split; [exact Hcy |]].
  - cbn [Earlier.CameraController.camera_position]. f_equal. exact Et.
  - assert (H1 : / 3 <= / zm) by (apply Rinv_le_contravar; lra).
    assert (H2 : / zm <= / 0.95) by (apply Rinv_le_contravar; lra).
    unfold Rdiv. split; lra.
Qed.

Lemma page_camera_target_is_finite_witness :
  exists (props : Earlier.ThreeSuitCanvas.Props) (zoom cameraY : R)
         (e' : Earlier.CameraController.State),
    Home.canvasProps 0.5 = Some props
    /\ Keyframes.useSuitScrollAnimation Keyframes.Zoom 0.5 = Some zoom
    /\ Keyframes.useSuitScrollAnimation Keyframes.CameraY 0.5 = Some cameraY
    /\ Earlier.CameraController.useFrame CAMERA_CONFIG
         (Home.cameraCells props (fin3 2 1.6 5) (fin3 2 1.6 5))
       = Normal e'
    /\ Earlier.CameraController.targetPosition e'
       = fin3 2 cameraY (5 / zoom)
    /\ Earlier.CameraController.camera_position e'
       = Vector3_lerp (fin3 2 1.6 5) (fin3 2 cameraY (5 / zoom)) (Fin 0.05)
    /\ 1.6 <= cameraY <= 1.8
    /\ 5 / 3 <= 5 / zoom <= 5 / 0.95.
Proof.
  apply (page_camera_target_is_finite 0.5 (fin3 2 1.6 5) (fin3 2 1.6 5)).
  reflexivity.
Defined.

(** X19. On the page as wired the suit is fully opaque up to the start of
    the Experience section (progress 0.7), fades linearly to nothing over
    the Experience section, and is invisible from the start of the Contact
    section (progress 0.85) on. *)
Theorem page_opacity_profile :
  forall progress : R,
    (progress <= 0.7 -> Home.sceneOpacity progress = Fin 1)
    /\ (0.7 <= progress <= 0.85 ->
        Home.sceneOpacity progress = Fin ((0.85 - progress) / 0.15))
    /\ (0.85 <= progress -> Home.sceneOpacity progress = Fin 0).
Proof.
  intros progress. unfold Home.sceneOpacity. repeat split; intros Hp.
  - replace (Keyframes.useSuitScrollAnimation Keyframes.Opacity progress)
      with (Some 1); [reflexivity |].
    symmetry. walk_table; f_equal; lra.
  - replace (Keyframes.useSuitScrollAnimation Keyframes.Opacity progress)
      with (Some ((0.85 - progress) / 0.15)); [reflexivity |].
    symmetry. walk_table; f_equal; lra.
  - replace (Keyframes.useSuitScrollAnimation Keyframes.Opacity progress)
      with (Some 0); [reflexivity |].
    symmetry. walk_table; f_equal; lra.
Qed.

(** X20. The pivot follows the viewport's width with the threshold at 768
    pixels, 768 included: for a box of finite corners with a positive
    largest dimension, the image of the box under the shipped configuration
    is centred at x = 0.5 when the width is at least 768 and at x = 0 when
    it is below; y and z of the centre are 0 in both cases. *)
Theorem pivot_threshold_is_768 :
  forall (w : R) (viewportHeight : number) (x0 y0 z0 x1 y1 z1 : R),
    x0 <= x1 -> y0 <= y1 -> z0 <= z1 ->
    0 < maxDimensionR x0 y0 z0 x1 y1 z1 ->
    exists o : Object3D,
      SuitModel.processedScene MODEL_CONFIG
        (mkBox3 (fin3 x0 y0 z0) (fin3 x1 y1 z1))
        (SuitModel.isDesktop (mkSize (Fin w) viewportHeight)) = Normal o
      /\ (768 <= w ->
          getCenter (imageBox o (mkBox3 (fin3 x0 y0 z0) (fin3 x1 y1 z1)))
          = fin3 0.5 0 0)
      /\ (w < 768 ->
          getCenter (imageBox o (mkBox3 (fin3 x0 y0 z0) (fin3 x1 y1 z1)))
          = fin3 0 0 0).
Proof.
  intros w viewportHeight x0 y0 z0 x1 y1 z1 Hx Hy Hz HM.
  change MODEL_CONFIG with (modelConfig 3 1.0 0 0.5).
  eexists. split; [apply processedScene_finite; lra |].
  rewrite normalized_image by assumption.
  unfold getCenter, fin3. cbn [x y z min max add]. fin_div.
  unfold SuitModel.isDesktop. cbn [width ge].
  split; intros Hw; destruct (Rle_dec 768 w); try lra;
    cbn [pivotOf]; f_equal; f_equal; field.
Qed.

Lemma pivot_threshold_is_768_witness :
  exists o : Object3D,
    SuitModel.processedScene MODEL_CONFIG unitBox
      (SuitModel.isDesktop (mkSize (Fin 768) (Fin 1024))) = Normal o
    /\ (768 <= 768 -> getCenter (imageBox o unitBox) = fin3 0.5 0 0)
    /\ (768 < 768 -> getCenter (imageBox o unitBox) = fin3 0 0 0).
Proof.
  apply (pivot_threshold_is_768 768 (Fin 1024) 0 0 0 1 1 1); try lra.
  unfold maxDimensionR, Rmax. repeat destruct Rle_dec; lra.
Defined.
